(** * Capturehouse landing page: a shallow embedding of [src/App.tsx]

    The page is a tree of React function components.  The parts with
    behaviour are embedded here: the event handlers and effect hooks of
    [CustomCursor], [RevealOnScroll], [Navbar], [Hero], [Methodology],
    [FAQItem] and [ContactForm], and the order in which [App] renders its
    sections.

    - JavaScript strings are sequences of UTF-16 code units ([list N]).
    - The object held by [useState] in [ContactForm] is a finite map from
      property names to values, because [handleChange] writes it through a
      computed key.
    - A handler runs against the values captured by the render that created
      it; it queues state updates, calls platform functions (recorded as a
      trace of [effect]s) and may throw. *)

From stdpp Require Import gmap list strings.
From Stdlib Require Import NArith ZArith QArith.

Local Open Scope N_scope.

(** ** JavaScript strings *)

Module JS.

(** Decoder used only to write the source's string literals: the UTF-8
    bytes of a literal of this file become the UTF-16 code units the same
    literal has in the TypeScript source. *)
Definition utf16_of_code_point (cp : N) : list N :=
  if cp <? 0x10000 then [cp]
  else [0xD800 + N.shiftr (cp - 0x10000) 10;
        0xDC00 + N.land (cp - 0x10000) 0x3FF].

Definition cont (b : N) : N := N.land b 0x3F.

Fixpoint utf16_of_utf8 (bs : list N) : list N :=
  match bs with
  | [] => []
  | b0 :: r0 =>
      if b0 <? 0x80 then b0 :: utf16_of_utf8 r0
      else
        match r0 with
        | [] => []
        | b1 :: r1 =>
            if b0 <? 0xE0 then
              (N.shiftl (N.land b0 0x1F) 6 + cont b1) :: utf16_of_utf8 r1
            else
              match r1 with
              | [] => []
              | b2 :: r2 =>
                  if b0 <? 0xF0 then
                    (N.shiftl (N.land b0 0x0F) 12 + N.shiftl (cont b1) 6
                     + cont b2) :: utf16_of_utf8 r2
                  else
                    match r2 with
                    | [] => []
                    | b3 :: r3 =>
                        utf16_of_code_point
                          (N.shiftl (N.land b0 0x07) 18
                           + N.shiftl (cont b1) 12
                           + N.shiftl (cont b2) 6 + cont b3)
                          ++ utf16_of_utf8 r3
                    end
              end
        end
  end.

Definition js (s : string) : list N :=
  utf16_of_utf8 (Ascii.N_of_ascii <$> String.list_ascii_of_string s).

(** The escape [\n]. *)
Definition LF : list N := [0x0A].

(** *** Surrogates *)

Definition isLeadingSurrogate (c : N) : bool :=
  (0xD800 <=? c) && (c <=? 0xDBFF).
Definition isTrailingSurrogate (c : N) : bool :=
  (0xDC00 <=? c) && (c <=? 0xDFFF).

Definition UTF16SurrogatePairToCodePoint (lead trail : N) : N :=
  (lead - 0xD800) * 0x400 + (trail - 0xDC00) + 0x10000.

(** [String.prototype.isWellFormed]: no lone surrogate. *)
Fixpoint isWellFormed (s : list N) : bool :=
  match s with
  | [] => true
  | c :: rest =>
      if isLeadingSurrogate c then
        match rest with
        | d :: rest' => isTrailingSurrogate d && isWellFormed rest'
        | [] => false
        end
      else if isTrailingSurrogate c then false
      else isWellFormed rest
  end.

(** What follows a piece cannot complete a surrogate pair. *)
Definition starts_clean (s : list N) : Prop :=
  match s with
  | d :: _ => isTrailingSurrogate d = false
  | [] => True
  end.

(** *** Exceptions *)

Inductive error := URIError | TypeError.

Inductive completion (A : Type) :=
| Normal (a : A)
| Throw (e : error).
Arguments Normal {A} a.
Arguments Throw {A} e.

(** *** [encodeURIComponent] (ECMA-262, abstract operation Encode with an
    empty set of extra unescaped characters) *)

Definition isAlpha (c : N) : bool :=
  ((0x41 <=? c) && (c <=? 0x5A)) || ((0x61 <=? c) && (c <=? 0x7A)).
Definition isDigit (c : N) : bool := (0x30 <=? c) && (c <=? 0x39).

(** The marks [- _ . ! ~ * ' ( )]. *)
Definition uriMark : list N :=
  [0x2D; 0x5F; 0x2E; 0x21; 0x7E; 0x2A; 0x27; 0x28; 0x29].

Definition unescaped (c : N) : bool :=
  isAlpha c || isDigit c || bool_decide (c ∈ uriMark).

Definition utf8_of_code_point (cp : N) : list N :=
  if cp <? 0x80 then [cp]
  else if cp <? 0x800 then
    [N.lor 0xC0 (N.shiftr cp 6); N.lor 0x80 (N.land cp 0x3F)]
  else if cp <? 0x10000 then
    [N.lor 0xE0 (N.shiftr cp 12);
     N.lor 0x80 (N.land (N.shiftr cp 6) 0x3F);
     N.lor 0x80 (N.land cp 0x3F)]
  else
    [N.lor 0xF0 (N.shiftr cp 18);
     N.lor 0x80 (N.land (N.shiftr cp 12) 0x3F);
     N.lor 0x80 (N.land (N.shiftr cp 6) 0x3F);
     N.lor 0x80 (N.land cp 0x3F)].

(** Upper-case hexadecimal digit. *)
Definition hexDigit (d : N) : N := if d <? 10 then 0x30 + d else 0x37 + d.

Definition percentEncode (octet : N) : list N :=
  [0x25; hexDigit (N.shiftr octet 4); hexDigit (N.land octet 0x0F)].

Definition escapeCodePoint (cp : N) : list N :=
  utf8_of_code_point cp ≫= percentEncode.

Fixpoint Encode (s : list N) : option (list N) :=
  match s with
  | [] => Some []
  | c :: rest =>
      if unescaped c then (c ::.) <$> Encode rest
      else if isLeadingSurrogate c then
        match rest with
        | d :: rest' =>
            if isTrailingSurrogate d then
              (escapeCodePoint (UTF16SurrogatePairToCodePoint c d) ++.)
                <$> Encode rest'
            else None
        | [] => None
        end
      else if isTrailingSurrogate c then None
      else (escapeCodePoint c ++.) <$> Encode rest
  end.

Definition encodeURIComponent (s : list N) : completion (list N) :=
  match Encode s with
  | Some r => Normal r
  | None => Throw URIError
  end.

(** Template-literal interpolation of a property read: a missing property
    reads as [undefined]. *)
Definition interpolate (v : option (list N)) : list N :=
  default (js "undefined") v.

End JS.

(** ** The platform: DOM lookups and the calls a handler can make *)

Module Platform.
Import JS.

(** A DOM node is known by its identity. *)
Definition element := N.

Inductive event_target := window | node (el : element).

(** The functions of [App.tsx] that are registered as listeners. *)
Inductive listener :=
| L_moveCursor | L_addHoverState | L_removeHoverState | L_handleScroll.

(** A CSS length [`${n}px`]. *)
Inductive css_length := px (n : Z).

Inductive effect :=
| preventDefault
| window_open (url target : list N)
| scrollIntoView (el : element) (behavior : list N)
| window_scrollTo (top : Z) (behavior : list N)
| addEventListener (t : event_target) (type : list N) (l : listener)
| removeEventListener (t : event_target) (type : list N) (l : listener)
| style_left (el : element) (v : css_length)
| style_top (el : element) (v : css_length)
| animate (el : element) (left top : css_length) (duration : N)
    (fill : list N)
| classList_add (el : element) (token : list N)
| classList_remove (el : element) (token : list N)
| IntersectionObserver_new (threshold : Q)
| observer_observe (el : element)
| observer_disconnect
(** Platform calls that [App.tsx] could make but never does. *)
| network_request (url : list N)
| storage_write (key value : list N).

(** What [document] answers. *)
Record Document := {
  querySelector : list N → option element;
  querySelectorAll : list N → list element;
  getElementById : list N → option element
}.

(** What [window] and [navigator] answer. *)
Record Window := {
  scrollY : Z;
  ontouchstart_in_window : bool;
  maxTouchPoints : N
}.




Definition opened_urls (t : list effect) : list (list N) :=
  t ≫= λ e, match e with window_open url _ => [url] | _ => [] end.

(** *** [classList]: the ordered token set of an element's class *)

Definition DOMTokenList_add (token : list N) (tokens : list (list N))
  : list (list N) :=
  if bool_decide (token ∈ tokens) then tokens else tokens ++ [token].

Definition DOMTokenList_remove (token : list N) (tokens : list (list N))
  : list (list N) :=
  filter (λ t, t ≠ token) tokens.

(** The class lists of the document's elements; an element that is not
    in the map has no class. *)
Definition apply_effect (classes : gmap element (list (list N)))
    (e : effect) : gmap element (list (list N)) :=
  match e with
  | classList_add el token =>
      <[el := DOMTokenList_add token (classes !!! el)]> classes
  | classList_remove el token =>
      <[el := DOMTokenList_remove token (classes !!! el)]> classes
  | _ => classes
  end.

Definition apply_trace (classes : gmap element (list (list N)))
    (t : list effect) : gmap element (list (list N)) :=
  foldl apply_effect classes t.

End Platform.

(** ** Handlers: queued state updates, platform calls, exceptions *)

Module React.
Import JS Platform.

Record run (S A : Type) : Type := Run {
  updates : list (S → S);
  effects : list effect;
  result : completion A
}.
Arguments Run {S A} _ _ _.
Arguments updates {S A} _.
Arguments effects {S A} _.
Arguments result {S A} _.

Section Monad.
Context {S : Type}.

Definition ret {A} (a : A) : run S A := Run [] [] (Normal a).

(** Sequencing stops at the first exception; what was queued or called
    before it stays. *)
Definition bind {A B} (m : run S A) (k : A → run S B) : run S B :=
  match result m with
  | Normal a =>
      let r := k a in
      Run (updates m ++ updates r) (effects m ++ effects r) (result r)
  | Throw e => Run (updates m) (effects m) (Throw e)
  end.

Definition call (e : effect) : run S unit := Run [] [e] (Normal ()).

(** [setX(v)] queues [λ _, v]; [setX(prev => f prev)] queues [f]. *)
Definition setState (u : S → S) : run S unit := Run [u] [] (Normal ()).

Definition eval {A} (c : completion A) : run S A := Run [] [] c.

(** The state of the next render. *)
Definition commit {A} (s : S) (r : run S A) : S :=
  foldl (λ s u, u s) s (updates r).


(** [xs.forEach(f)] *)
Fixpoint forEach {A} (xs : list A) (f : A → run S unit) : run S unit :=
  match xs with
  | [] => ret ()
  | x :: xs' => bind (f x) (λ _, forEach xs' f)
  end.
End Monad.

#[global] Instance run_ret {S} : MRet (run S) := λ A a, ret a.
#[global] Instance run_bind {S} : MBind (run S) := λ A B k m, bind m k.

End React.

(** ** [ContactForm] *)

Module ContactForm.
Import JS Platform React.

(** [useState({ name: "", instagram: "", niche: "", objective: "" })] *)
Definition initial : gmap (list N) (list N) :=
  <[js "name" := []]> (<[js "instagram" := []]>
    (<[js "niche" := []]> (<[js "objective" := []]> ∅))).

Definition fields : list (list N) :=
  [js "name"; js "instagram"; js "niche"; js "objective"].

(** [e.target] of a change event. *)
Record ChangeEvent := { target_name : list N; target_value : list N }.

Definition handleChange (e : ChangeEvent) : run (gmap (list N) (list N)) unit :=
  let name := target_name e in
  let value := target_value e in
  setState (λ prev, <[name := value]> prev).

Definition handleSubmit (formData : gmap (list N) (list N))
  : run (gmap (list N) (list N)) unit :=
  call preventDefault;;
  let phoneNumber := js "5519999592852" in
  message ← eval (encodeURIComponent (
    js "*Nova Aplicação via Site Capturehouse*" ++ LF ++ LF ++
    js "*Nome:* " ++ interpolate (formData !! js "name") ++ LF ++
    js "*Instagram:* " ++ interpolate (formData !! js "instagram") ++ LF ++
    js "*Atuação:* " ++ interpolate (formData !! js "niche") ++ LF ++
    js "*Objetivo:* " ++ interpolate (formData !! js "objective")));
  call (window_open
          (js "https://wa.me/" ++ phoneNumber ++ js "?text=" ++ message)
          (js "_blank")).

(** The form state in which the four inputs show the given values. *)
Definition form (name instagram niche objective : list N)
  : gmap (list N) (list N) :=
  <[js "name" := name]> (<[js "instagram" := instagram]>
    (<[js "niche" := niche]> (<[js "objective" := objective]> ∅))).

End ContactForm.

(** ** [CustomCursor] *)

Module CustomCursor.
Import JS Platform React.


Definition addHoverState (outline : option element) : run () () :=
  match outline with
  | Some o => call (classList_add o (js "hovered"))
  | None => mret ()
  end.

Definition removeHoverState (outline : option element) : run () () :=
  match outline with
  | Some o => call (classList_remove o (js "hovered"))
  | None => mret ()
  end.

(** The cleanup closure, known by the elements it captured. *)
Definition cleanup (interactiveElements : list element) : run () () :=
  call (removeEventListener window (js "mousemove") L_moveCursor);;
  forEach interactiveElements (λ el,
    call (removeEventListener (node el) (js "mouseenter") L_addHoverState);;
    call (removeEventListener (node el) (js "mouseleave")
            L_removeHoverState)).

(** The body of the effect hook; it returns [undefined] ([None]) or the
    cleanup. *)
Definition useEffect (document : Document) (win : Window)
  : run () (option (list element)) :=
  let dot := querySelector document (js ".cursor-dot") in
  let outline := querySelector document (js ".cursor-outline") in
  match dot, outline with
  | Some _, Some _ =>
      let isTouchDevice :=
        ontouchstart_in_window win || (0 <? maxTouchPoints win) in
      if isTouchDevice then mret None
      else
        call (addEventListener window (js "mousemove") L_moveCursor);;
        let interactiveElements :=
          querySelectorAll document
            (js "a, button, input, textarea, .interactive") in
        forEach interactiveElements (λ el,
          call (addEventListener (node el) (js "mouseenter")
                  L_addHoverState);;
          call (addEventListener (node el) (js "mouseleave")
                  L_removeHoverState));;
        mret (Some interactiveElements)
  | _, _ => mret None
  end.

End CustomCursor.

(** ** [RevealOnScroll] *)

Module RevealOnScroll.
Import JS Platform React.

Record IntersectionObserverEntry := { isIntersecting : bool }.

(** [useState(false)] *)
Definition initial : bool := false.

(** [{ threshold: 0.1 }] *)
Definition threshold : Q := 1 # 10.

(** The observer callback [([entry]) => ...]: it reads the first entry of
    the batch; on an empty batch [entry] is [undefined]. *)
Definition callback (entries : list IntersectionObserverEntry)
  : run bool () :=
  match entries with
  | entry :: _ =>
      if isIntersecting entry then
        setState (λ _, true);;
        call observer_disconnect
      else mret ()
  | [] => eval (Throw TypeError)
  end.

Definition useEffect (ref_current : option element) : run bool () :=
  call (IntersectionObserver_new threshold);;
  match ref_current with
  | Some el => call (observer_observe el)
  | None => mret ()
  end.

Definition cleanup : run bool () := call observer_disconnect.

(** One mounted instance: its flag and the targets of its observer. *)
Record instance := { isVisible : bool; targets : list element }.

Definition mounted : instance := {| isVisible := initial; targets := [] |}.

Inductive event :=
| Effect (ref_current : option element)
| Notify (entries : list IntersectionObserverEntry)
| Unmount.

Definition handler (ev : event) : run bool () :=
  match ev with
  | Effect r => useEffect r
  | Notify entries => callback entries
  | Unmount => cleanup
  end.

Definition observer_step (ts : list element) (e : effect) : list element :=
  match e with
  | IntersectionObserver_new _ => []
  | observer_observe el => ts ++ [el]
  | observer_disconnect => []
  | _ => ts
  end.

(** An uncaught exception of a handler leaves the instance as the handler
    left it. *)
Definition step (i : instance) (ev : event) : instance :=
  let r := handler ev in
  {| isVisible := commit (isVisible i) r;
     targets := foldl observer_step (targets i) (effects r) |}.

Definition steps (i : instance) (evs : list event) : instance :=
  foldl step i evs.

(** The batch makes the callback see an intersecting [entry]. *)
Definition reveals (ev : event) : bool :=
  match ev with
  | Notify (entry :: _) => isIntersecting entry
  | _ => false
  end.

(** [className={`reveal ${isVisible ? "active" : ""} ${className}`}] *)
Definition className (isVisible : bool) (className : list N) : list N :=
  js "reveal " ++ (if isVisible then js "active" else []) ++ js " "
    ++ className.

End RevealOnScroll.

(** ** [Navbar] *)

Module Navbar.
Import JS Platform React.

(** The two [useState(false)] cells. *)
Record state := { scrolled : bool; mobileMenuOpen : bool }.

Definition initial : state := {| scrolled := false; mobileMenuOpen := false |}.

Definition setScrolled (v : bool) : run state () :=
  setState (λ s, {| scrolled := v; mobileMenuOpen := mobileMenuOpen s |}).

Definition setMobileMenuOpen (v : bool) : run state () :=
  setState (λ s, {| scrolled := scrolled s; mobileMenuOpen := v |}).

Definition handleScroll (win : Window) : run state () :=
  setScrolled (bool_decide (20 < scrollY win)%Z).

Definition useEffect : run state () :=
  call (addEventListener window (js "scroll") L_handleScroll).

Definition cleanup : run state () :=
  call (removeEventListener window (js "scroll") L_handleScroll).

Definition scrollToSection (document : Document) (id : list N)
  : run state () :=
  let element := getElementById document id in
  match element with
  | Some el =>
      call (scrollIntoView el (js "smooth"));;
      setMobileMenuOpen false
  | None => mret ()
  end.

Definition navItems : list (list N * list N) :=
  [ (js "Soluções", js "solucoes");
    (js "Diferenciais", js "diferenciais");
    (js "Imóveis", js "imoveis");
    (js "Sobre", js "sobre");
    (js "Feedback", js "feedback") ].

(** The logo: [window.scrollTo({ top: 0, behavior: 'smooth' })]. *)
Definition logo_onClick : run state () :=
  call (window_scrollTo 0 (js "smooth")).

(** The hamburger button of a render that showed [s]. *)
Definition hamburger_onClick (s : state) : run state () :=
  setMobileMenuOpen (negb (mobileMenuOpen s)).

(** The buttons of the desktop menu and of the mobile overlay. *)
Definition item_onClick (document : Document) (item : list N * list N)
  : run state () :=
  scrollToSection document item.2.

Definition consultoria_onClick (document : Document) : run state () :=
  scrollToSection document (js "contato").

End Navbar.

(** ** The scroll buttons of [Hero] and [Methodology] *)

Module Hero.
Import JS Platform React.

(** [document.getElementById(id)?.scrollIntoView({behavior: 'smooth'})] *)
Definition scroll_button (document : Document) (id : list N) : run () () :=
  match getElementById document id with
  | Some el => call (scrollIntoView el (js "smooth"))
  | None => mret ()
  end.

Definition escalar_onClick (document : Document) : run () () :=
  scroll_button document (js "contato").

Definition conhecer_onClick (document : Document) : run () () :=
  scroll_button document (js "solucoes").

End Hero.

Module Methodology.
Import JS Platform React.

Definition diagnostico_onClick (document : Document) : run () () :=
  Hero.scroll_button document (js "contato").

End Methodology.

(** ** [FAQItem] and [FAQ] *)

Module FAQItem.
Import JS Platform React.

(** [useState(false)] *)
Definition initial : bool := false.

(** [onClick={() => setIsOpen(!isOpen)}], of a render that showed
    [isOpen]. *)
Definition onClick (isOpen : bool) : run bool () :=
  setState (λ _, negb isOpen).

End FAQItem.

Module FAQ.
Import JS Platform React.

(** The four [FAQItem]s, by [index]. *)
Definition initial : list bool := replicate 4 FAQItem.initial.

(** A click on the button of item [i]: the item re-renders with its own
    new state. *)
Definition click (i : nat) (items : list bool) : list bool :=
  match items !! i with
  | Some isOpen => <[i := commit isOpen (FAQItem.onClick isOpen)]> items
  | None => items
  end.

End FAQ.

(** ** [App]: the page *)

Module App.
Import JS Platform React.

(** The children of the root [div], in source order. *)
Definition children : list string :=
  [ "CustomCursor"; "Navbar"; "Hero"; "InfiniteMarquee"; "Services";
    "WhyChooseUs"; "Results"; "Partners"; "Portfolio"; "Team";
    "Feedbacks"; "Methodology"; "FAQ"; "ContactForm"; "Footer";
    "WhatsAppButton" ]%string.

Definition renders_before (a b : string) : Prop :=
  ∃ i j : nat, children !! i = Some a ∧ children !! j = Some b ∧ (i < j)%nat.




(** The [useState] cells of the page and the type of what each holds. *)
Inductive cell :=
| RevealOnScroll_isVisible
| Navbar_scrolled
| Navbar_mobileMenuOpen
| FAQItem_isOpen
| ContactForm_formData.

Definition cell_type (c : cell) : Type :=
  match c with
  | RevealOnScroll_isVisible => bool
  | Navbar_scrolled => bool
  | Navbar_mobileMenuOpen => bool
  | FAQItem_isOpen => bool
  | ContactForm_formData => gmap (list N) (list N)
  end.

Definition cell_initial (c : cell) : cell_type c :=
  match c with
  | RevealOnScroll_isVisible => RevealOnScroll.initial
  | Navbar_scrolled => Navbar.scrolled Navbar.initial
  | Navbar_mobileMenuOpen => Navbar.mobileMenuOpen Navbar.initial
  | FAQItem_isOpen => FAQItem.initial
  | ContactForm_formData => ContactForm.initial
  end.

End App.

(** ** Rendering: what the browser loads for the markup *)

Module Rendering.
Import JS Platform.









End Rendering.

(** ** Sessions: the handlers run one after the other, each on a fresh
    render *)

Module Session.
Import JS Platform React.

(** *** [ContactForm] *)

(** The form state of the render that follows a change event. *)
Definition change (formData : gmap (list N) (list N))
    (e : ContactForm.ChangeEvent) : gmap (list N) (list N) :=
  commit formData (ContactForm.handleChange e).

Definition changes (formData : gmap (list N) (list N))
    (es : list ContactForm.ChangeEvent) : gmap (list N) (list N) :=
  foldl change formData es.

(** The value of the last event of [es] whose target is named [k]. *)
Definition last_value (k : list N) (es : list ContactForm.ChangeEvent)
  : option (list N) :=
  ContactForm.target_value
    <$> last (filter (λ e, ContactForm.target_name e = k) es).

(** The text that [handleSubmit] hands to [encodeURIComponent], of the four
    interpolated values. *)
Definition message (name instagram niche objective : list N) : list N :=
  js "*Nova Aplicação via Site Capturehouse*" ++ LF ++ LF ++
  js "*Nome:* " ++ name ++ LF ++
  js "*Instagram:* " ++ instagram ++ LF ++
  js "*Atuação:* " ++ niche ++ LF ++
  js "*Objetivo:* " ++ objective.

(** A JavaScript string: every unit has 16 bits. *)
Definition code_units (s : list N) : Prop := Forall (λ c, c < 0x10000) s.

(** A unit that [encodeURIComponent] can put out: an unreserved character
    or the percent sign. *)
Definition url_safe (c : N) : Prop := unescaped c = true ∨ c = 0x25.

(** Reading back the first character of an encoded string, to tell encoded
    strings apart: an unreserved character stands for itself, and a run of
    [%XX] octets is one UTF-8 sequence. *)
Definition unhex (h : N) : N := if h <? 0x3A then h - 0x30 else h - 0x37.

Definition read_octet (r : list N) : option (N * list N) :=
  match r with
  | 0x25 :: h :: l :: rest => Some (unhex h * 16 + unhex l, rest)
  | _ => None
  end.

Definition decode_head (r : list N) : option (list N * list N) :=
  match r with
  | [] => None
  | c :: rest =>
      if c =? 0x25 then
        '(b0, r0) ← read_octet r;
        if b0 <? 0x80 then Some ([b0], r0)
        else
          '(b1, r1) ← read_octet r0;
          if b0 <? 0xE0 then
            Some (utf16_of_code_point ((b0 - 0xC0) * 64 + (b1 - 0x80)), r1)
          else
            '(b2, r2) ← read_octet r1;
            if b0 <? 0xF0 then
              Some (utf16_of_code_point
                      ((b0 - 0xE0) * 4096 + (b1 - 0x80) * 64 + (b2 - 0x80)),
                    r2)
            else
              '(b3, r3) ← read_octet r2;
              Some (utf16_of_code_point
                      ((b0 - 0xF0) * 262144 + (b1 - 0x80) * 4096
                       + (b2 - 0x80) * 64 + (b3 - 0x80)),
                    r3)
      else Some ([c], rest)
  end.

(** *** [CustomCursor] *)

(** The call that takes back a registration. *)
Definition unregister (e : effect) : effect :=
  match e with
  | addEventListener t type l => removeEventListener t type l
  | _ => e
  end.

(** *** [Navbar] *)

Inductive nav_event :=
| Scroll (win : Window)
| Hamburger
| NavClick (document : Document) (id : list N)
| Logo.

(** The handler that the event reaches, of the render that showed [s]. *)
Definition nav_handler (s : Navbar.state) (ev : nav_event)
  : run Navbar.state () :=
  match ev with
  | Scroll win => Navbar.handleScroll win
  | Hamburger => Navbar.hamburger_onClick s
  | NavClick document id => Navbar.scrollToSection document id
  | Logo => Navbar.logo_onClick
  end.

Definition nav_step (s : Navbar.state) (ev : nav_event) : Navbar.state :=
  commit s (nav_handler s ev).

Definition nav_steps (s : Navbar.state) (evs : list nav_event)
  : Navbar.state :=
  foldl nav_step s evs.

Definition is_scroll (ev : nav_event) : bool :=
  match ev with Scroll _ => true | _ => false end.

Definition last_scroll (evs : list nav_event) : option Window :=
  last (evs ≫= λ ev, match ev with Scroll win => [win] | _ => [] end).

(** *** [FAQ] *)

Definition faq_clicks (items : list bool) (clicks : list nat) : list bool :=
  foldl (λ items i, FAQ.click i items) items clicks.

End Session.

(** ** The ids of the page and the lookups of its buttons *)

Module Page.
Import JS Platform React.

(** The [id] of the [<section>] that a child of [App] renders, if it has
    one. *)
Definition section_id (child : string) : option (list N) :=
  if bool_decide (child = "Services"%string) then Some (js "solucoes")
  else if bool_decide (child = "WhyChooseUs"%string)
       then Some (js "diferenciais")
  else if bool_decide (child = "Portfolio"%string) then Some (js "imoveis")
  else if bool_decide (child = "Results"%string) then Some (js "resultados")
  else if bool_decide (child = "Team"%string) then Some (js "sobre")
  else if bool_decide (child = "Feedbacks"%string) then Some (js "feedback")
  else if bool_decide (child = "ContactForm"%string) then Some (js "contato")
  else None.

Definition rendered_ids : list (list N) := omap section_id App.children.

(** The document shows the page: every rendered id resolves. *)
Definition shows_page (document : Document) : Prop :=
  ∀ id, id ∈ rendered_ids → is_Some (getElementById document id).

(** The ids that the buttons of [Navbar] look up. *)
Definition navbar_targets : list (list N) :=
  Navbar.navItems.*2 ++ [js "contato"].

End Page.

(** ** [InfiniteMarquee] *)

Module InfiniteMarquee.
Import JS.

Definition terms : list (list N) :=
  [ js "ESTRATÉGIA"; js "MARKETING IMOBILIÁRIO"; js "CAPTUREHOUSE";
    js "GROWTH"; js "ESCALA"; js "B2B REAL ESTATE" ].

(** [[...terms, ...terms, ...terms].map((term, i) => ...)]: the [key] and
    the text of each item of a strip made of [terms]. *)
Definition strip (terms : list (list N)) : list (nat * list N) :=
  imap (λ i term, (i, term)) (terms ++ terms ++ terms).

Definition items : list (nat * list N) := strip terms.

End InfiniteMarquee.

(** * Properties *)

(** ** Strings and [encodeURIComponent] *)

Section Strings.
Import JS.

(** Induction that follows a function consuming one or two code units. *)
Lemma code_units_ind (P : list N → Prop) :
  P [] →
  (∀ c rest, P rest → (∀ d rest', rest = d :: rest' → P rest') →
             P (c :: rest)) →
  ∀ s, P s.
Proof.
  intros Hnil Hcons s.
  enough (P s ∧ P (tail s)) as [? _] by done.
  induction s as [|c s [IH1 IH2]]; [done|].
  split; [|done].
  apply Hcons; [done|]. intros d rest' ->. exact IH2.
Qed.

Lemma unescaped_ascii c : unescaped c = true → c < 0x7F.
Proof.
  unfold unescaped, isAlpha, isDigit, uriMark.
  rewrite !orb_true_iff, !andb_true_iff, !N.leb_le, bool_decide_eq_true.
  intros [[[[_ ?]|[_ ?]]|[_ ?]]|Hin]; try lia.
  repeat (apply elem_of_cons in Hin as [->|Hin]; [lia|]).
  by apply elem_of_nil in Hin.
Qed.

Lemma unescaped_not_surrogate c :
  unescaped c = true →
  isLeadingSurrogate c = false ∧ isTrailingSurrogate c = false.
Proof.
  intros H%unescaped_ascii.
  unfold isLeadingSurrogate, isTrailingSurrogate.
  rewrite !andb_false_iff, !N.leb_gt. lia.
Qed.

Lemma Encode_is_Some s : is_Some (Encode s) ↔ isWellFormed s = true.
Proof.
  induction s as [|c rest IH1 IH2] using code_units_ind; simpl.
  - split; eauto.
  - destruct (unescaped c) eqn:Hu.
    + destruct (unescaped_not_surrogate c Hu) as [-> ->].
      by rewrite fmap_is_Some.
    + destruct (isLeadingSurrogate c).
      * destruct rest as [|d rest']; [split; [by intros [? ?]|done]|].
        destruct (isTrailingSurrogate d); simpl.
        -- rewrite fmap_is_Some. by apply (IH2 _ _ eq_refl).
        -- split; [by intros [? ?]|done].
      * destruct (isTrailingSurrogate c).
        -- split; [by intros [? ?]|done].
        -- by rewrite fmap_is_Some.
Qed.

Lemma encodeURIComponent_throws s :
  isWellFormed s = false → encodeURIComponent s = Throw URIError.
Proof.
  intros H. unfold encodeURIComponent.
  destruct (Encode s) eqn:E; [|done].
  assert (isWellFormed s = true) by (apply Encode_is_Some; eauto).
  congruence.
Qed.

Lemma encodeURIComponent_returns s :
  isWellFormed s = true →
  ∃ r, Encode s = Some r ∧ encodeURIComponent s = Normal r.
Proof.
  intros [r Hr]%Encode_is_Some. exists r.
  unfold encodeURIComponent. by rewrite Hr.
Qed.

Lemma isWellFormed_app_l a b :
  isWellFormed a = true → isWellFormed (a ++ b) = isWellFormed b.
Proof.
  induction a as [|c rest IH1 IH2] using code_units_ind; simpl; [done|].
  destruct (isLeadingSurrogate c).
  - destruct rest as [|d rest']; [done|]. simpl.
    intros [-> ?]%andb_true_iff. simpl. by apply (IH2 _ _ eq_refl).
  - destruct (isTrailingSurrogate c); [done|]. exact IH1.
Qed.

Lemma isWellFormed_app_bad a b :
  isWellFormed a = false → starts_clean b → isWellFormed (a ++ b) = false.
Proof.
  induction a as [|c rest IH1 IH2] using code_units_ind; simpl; [done|].
  destruct (isLeadingSurrogate c).
  - destruct rest as [|d rest']; simpl.
    + intros _ Hb. destruct b as [|d b']; [done|].
      simpl in Hb. by rewrite Hb.
    + intros [->| H]%andb_false_iff Hb; [done|].
      rewrite (IH2 _ _ eq_refl H Hb). apply andb_false_r.
  - destruct (isTrailingSurrogate c); [done|]. exact IH1.
Qed.

Lemma isWellFormed_app a b :
  starts_clean b →
  isWellFormed (a ++ b) = isWellFormed a && isWellFormed b.
Proof.
  intros Hb. destruct (isWellFormed a) eqn:Ha.
  - by apply isWellFormed_app_l.
  - by apply isWellFormed_app_bad.
Qed.

End Strings.

(** ** [ContactForm] *)

Section ContactFormProperties.
Import JS Platform React ContactForm.

Lemma isWellFormed_undefined : isWellFormed (js "undefined") = true.
Proof. reflexivity. Qed.

(** The interpolated message is well formed exactly when the four values
    are. *)
Lemma message_isWellFormed (name instagram niche objective : list N) :
  isWellFormed
    (js "*Nova Aplicação via Site Capturehouse*" ++ LF ++ LF ++
     js "*Nome:* " ++ name ++ LF ++
     js "*Instagram:* " ++ instagram ++ LF ++
     js "*Atuação:* " ++ niche ++ LF ++
     js "*Objetivo:* " ++ objective)
  = isWellFormed name && isWellFormed instagram && isWellFormed niche
    && isWellFormed objective.
Proof.
  rewrite (isWellFormed_app_l (js "*Nova Aplicação via Site Capturehouse*"))
    by reflexivity.
  do 2 (rewrite (isWellFormed_app_l LF) by reflexivity).
  rewrite (isWellFormed_app_l (js "*Nome:* ")) by reflexivity.
  rewrite (isWellFormed_app name) by reflexivity.
  rewrite (isWellFormed_app_l LF) by reflexivity.
  rewrite (isWellFormed_app_l (js "*Instagram:* ")) by reflexivity.
  rewrite (isWellFormed_app instagram) by reflexivity.
  rewrite (isWellFormed_app_l LF) by reflexivity.
  rewrite (isWellFormed_app_l (js "*Atuação:* ")) by reflexivity.
  rewrite (isWellFormed_app niche) by reflexivity.
  rewrite (isWellFormed_app_l LF) by reflexivity.
  rewrite (isWellFormed_app_l (js "*Objetivo:* ")) by reflexivity.
  by rewrite !andb_assoc.
Qed.

Lemma handleSubmit_unfold (formData : gmap (list N) (list N)) :
  handleSubmit formData =
  match encodeURIComponent
          (js "*Nova Aplicação via Site Capturehouse*" ++ LF ++ LF ++
           js "*Nome:* " ++ interpolate (formData !! js "name") ++ LF ++
           js "*Instagram:* " ++ interpolate (formData !! js "instagram")
             ++ LF ++
           js "*Atuação:* " ++ interpolate (formData !! js "niche") ++ LF ++
           js "*Objetivo:* " ++ interpolate (formData !! js "objective"))
  with
  | Normal message =>
      Run [] [preventDefault;
              window_open (js "https://wa.me/5519999592852?text=" ++ message)
                (js "_blank")] (Normal ())
  | Throw e => Run [] [preventDefault] (Throw e)
  end.
Proof.
  unfold handleSubmit, mbind, run_bind, bind, call, eval.
  cbn [result updates effects].
  destruct (encodeURIComponent _) as [message|e];
    cbn [result updates effects app]; [|done].
  by vm_compute.
Qed.

Lemma handleSubmit_updates (formData : gmap (list N) (list N)) :
  updates (handleSubmit formData) = [].
Proof.
  rewrite handleSubmit_unfold. by destruct (encodeURIComponent _).
Qed.

End ContactFormProperties.

Section ContactFormClaims.
Import JS Platform React ContactForm.

(** C1, as amended.  For every form state whose four values are well-formed
    UTF-16, [handleSubmit] prevents the default submission and opens exactly
    one URL: ["https://wa.me/5519999592852?text="] followed by the
    [encodeURIComponent] encoding of the message
    ["*Nova Aplicação via Site Capturehouse*"], a blank line, and the four
    values after the labels Nome, Instagram, Atuação and Objetivo, in that
    order.  When a value holds a lone surrogate, [encodeURIComponent] throws
    [URIError] and no URL is opened. *)
Theorem handleSubmit_opens_whatsapp
    (formData : gmap (list N) (list N))
    (name instagram niche objective : list N) :
  formData !! js "name" = Some name →
  formData !! js "instagram" = Some instagram →
  formData !! js "niche" = Some niche →
  formData !! js "objective" = Some objective →
  if isWellFormed name && isWellFormed instagram && isWellFormed niche
     && isWellFormed objective
  then
    ∃ encoded,
      Encode (js "*Nova Aplicação via Site Capturehouse*" ++ LF ++ LF ++
              js "*Nome:* " ++ name ++ LF ++
              js "*Instagram:* " ++ instagram ++ LF ++
              js "*Atuação:* " ++ niche ++ LF ++
              js "*Objetivo:* " ++ objective) = Some encoded
      ∧ result (handleSubmit formData) = Normal ()
      ∧ effects (handleSubmit formData) =
          [preventDefault;
           window_open (js "https://wa.me/5519999592852?text=" ++ encoded)
             (js "_blank")]
      ∧ opened_urls (effects (handleSubmit formData)) =
          [js "https://wa.me/5519999592852?text=" ++ encoded]
  else
    result (handleSubmit formData) = Throw URIError
    ∧ opened_urls (effects (handleSubmit formData)) = [].
Proof.
  intros Hn Hi Hc Ho.
  rewrite handleSubmit_unfold, Hn, Hi, Hc, Ho.
  unfold interpolate. cbn [from_option id].
  rewrite <- message_isWellFormed.
  destruct (isWellFormed _) eqn:Hwf.
  - destruct (encodeURIComponent_returns _ Hwf) as (encoded & HE & ->).
    exists encoded. by rewrite HE.
  - by rewrite (encodeURIComponent_throws _ Hwf).
Qed.

Lemma handleSubmit_opens_whatsapp_witness :
  ∃ encoded,
    Encode (js "*Nova Aplicação via Site Capturehouse*" ++ LF ++ LF ++
            js "*Nome:* " ++ js "Ana" ++ LF ++
            js "*Instagram:* " ++ js "@ana" ++ LF ++
            js "*Atuação:* " ++ js "Alto Padrão" ++ LF ++
            js "*Objetivo:* " ++ js "VGV") = Some encoded
    ∧ result (handleSubmit
                (form (js "Ana") (js "@ana") (js "Alto Padrão") (js "VGV")))
      = Normal ()
    ∧ effects (handleSubmit
                 (form (js "Ana") (js "@ana") (js "Alto Padrão") (js "VGV")))
      = [preventDefault;
         window_open (js "https://wa.me/5519999592852?text=" ++ encoded)
           (js "_blank")]
    ∧ opened_urls
        (effects (handleSubmit
                    (form (js "Ana") (js "@ana") (js "Alto Padrão")
                       (js "VGV"))))
      = [js "https://wa.me/5519999592852?text=" ++ encoded].
Proof.
  exact (handleSubmit_opens_whatsapp
           (form (js "Ana") (js "@ana") (js "Alto Padrão") (js "VGV"))
           (js "Ana") (js "@ana") (js "Alto Padrão") (js "VGV")
           eq_refl eq_refl eq_refl eq_refl).
Defined.

(** The URL of a concrete submission, spelled out. *)
Example handleSubmit_ana :
  opened_urls
    (effects (handleSubmit
                (form (js "Ana") (js "@ana") (js "Alto Padrão") (js "VGV"))))
  = [js ("https://wa.me/5519999592852?text=" +:+
         "*Nova%20Aplica%C3%A7%C3%A3o%20via%20Site%20Capturehouse*%0A%0A" +:+
         "*Nome%3A*%20Ana%0A*Instagram%3A*%20%40ana%0A" +:+
         "*Atua%C3%A7%C3%A3o%3A*%20Alto%20Padr%C3%A3o%0A" +:+
         "*Objetivo%3A*%20VGV")].
Proof. by vm_compute. Qed.

(** C1, as stated, fails: with a lone surrogate in the name,
    [encodeURIComponent] throws and [handleSubmit] opens no URL. *)
Lemma handleSubmit_lone_surrogate :
  result (handleSubmit (form [0xD800] (js "@ana") (js "Lançamentos")
                          (js "VGV"))) = Throw URIError
  ∧ opened_urls
      (effects (handleSubmit (form [0xD800] (js "@ana") (js "Lançamentos")
                                (js "VGV")))) = [].
Proof. by vm_compute. Qed.

(** C8.  A change event whose target is one of the four inputs sets that
    field to the new value and leaves every other field as it was;
    [handleChange] calls nothing and does not throw. *)
Theorem handleChange_sets_field
    (formData : gmap (list N) (list N)) (e : ChangeEvent) :
  target_name e ∈ fields →
  commit formData (handleChange e) !! target_name e = Some (target_value e)
  ∧ (∀ k, k ≠ target_name e →
          commit formData (handleChange e) !! k = formData !! k)
  ∧ effects (handleChange e) = []
  ∧ result (handleChange e) = Normal ().
Proof.
  intros _. unfold handleChange, commit, setState. cbn [updates foldl].
  split; [apply lookup_insert_eq|].
  split; [|done]. intros k Hk. by apply lookup_insert_ne.
Qed.

Lemma handleChange_sets_field_witness :
  commit (form (js "Ana") [] [] [])
    (handleChange {| target_name := js "niche";
                     target_value := js "Alto Padrão" |}) !! js "niche"
  = Some (js "Alto Padrão")
  ∧ (∀ k, k ≠ js "niche" →
          commit (form (js "Ana") [] [] [])
            (handleChange {| target_name := js "niche";
                             target_value := js "Alto Padrão" |}) !! k
          = form (js "Ana") [] [] [] !! k)
  ∧ effects (handleChange {| target_name := js "niche";
                             target_value := js "Alto Padrão" |}) = []
  ∧ result (handleChange {| target_name := js "niche";
                            target_value := js "Alto Padrão" |}) = Normal ().
Proof.
  apply (handleChange_sets_field (form (js "Ana") [] [] [])
           {| target_name := js "niche"; target_value := js "Alto Padrão" |}).
  vm_compute. do 2 right. left.
Defined.

(** C9.  [handleSubmit] queues no state update, whether the URL is opened or
    the encoding throws: the next render shows the form state that was
    submitted, so each of the four fields reads as before. *)
Theorem handleSubmit_keeps_form (formData : gmap (list N) (list N)) :
  updates (handleSubmit formData) = []
  ∧ commit formData (handleSubmit formData) = formData
  ∧ ∀ k, commit formData (handleSubmit formData) !! k = formData !! k.
Proof.
  unfold commit. by rewrite handleSubmit_updates.
Qed.

End ContactFormClaims.

(** ** Handlers in general *)

Section RunProperties.
Import JS Platform React.
Context {S : Type}.

Lemma effects_bind {A B} (m : run S A) (k : A → run S B) :
  effects (m ≫= k) =
  effects m ++ match result m with
               | Normal a => effects (k a)
               | Throw _ => []
               end.
Proof.
  unfold mbind, run_bind, bind.
  destruct (result m); cbn [effects]; by rewrite ?app_nil_r.
Qed.


End RunProperties.

(** ** [RevealOnScroll] *)

Section RevealOnScrollClaims.
Import JS Platform React RevealOnScroll.

Lemma step_isVisible (i : instance) (ev : event) :
  isVisible (step i ev) = isVisible i || reveals ev.
Proof.
  destruct ev as [[el|]|[|[[]] rest]|]; cbn; by rewrite ?orb_false_r, ?orb_true_r.
Qed.

Lemma steps_isVisible (i : instance) (evs : list event) :
  isVisible (steps i evs) = isVisible i || existsb reveals evs.
Proof.
  revert i. induction evs as [|ev evs IH]; intros i; cbn.
  - by rewrite orb_false_r.
  - unfold steps in IH. by rewrite IH, step_isVisible, orb_assoc.
Qed.

(** C2, as amended.  The flag of a [RevealOnScroll] starts false; its
    observer is made with threshold 0.1; after any sequence of hook runs,
    observer callbacks and unmounts the flag is true exactly when some
    callback so far was handed a batch whose first entry (the only one the
    callback reads) has [isIntersecting] true, so it turns true at the
    first such callback; that callback disconnects the observer; and from a
    state where the flag is true no sequence of steps makes it false. *)
Theorem reveal_is_one_way :
  isVisible mounted = false
  ∧ (∀ r, ∃ rest, effects (useEffect r)
                  = IntersectionObserver_new (1 # 10) :: rest)
  ∧ (∀ evs, isVisible (steps mounted evs) = existsb reveals evs)
  ∧ (∀ i entry rest,
       isIntersecting entry = true →
       isVisible (step i (Notify (entry :: rest))) = true
       ∧ targets (step i (Notify (entry :: rest))) = []
       ∧ effects (callback (entry :: rest)) = [observer_disconnect])
  ∧ (∀ i evs, isVisible i = true → isVisible (steps i evs) = true).
Proof.
  split; [done|]. split.
  { intros [el|]; eexists; reflexivity. }
  split; [intros evs; by rewrite steps_isVisible|]. split.
  - intros i [[]] rest H; [|done]. by cbn.
  - intros i evs H. by rewrite steps_isVisible, H.
Qed.

Lemma reveal_is_one_way_witness :
  isVisible (step mounted (Notify [{| isIntersecting := true |}])) = true
  ∧ targets (step (step mounted (Effect (Some 7%N)))
               (Notify [{| isIntersecting := true |}])) = []
  ∧ isVisible
      (steps (step mounted (Notify [{| isIntersecting := true |}]))
         [Notify [{| isIntersecting := false |}]; Effect None; Unmount])
    = true.
Proof.
  destruct reveal_is_one_way as (_ & _ & _ & Hfire & Hkeep).
  split; [apply Hfire; reflexivity|].
  split; [apply Hfire; reflexivity|].
  apply Hkeep. reflexivity.
Defined.

(** A section below the fold: hidden at first, revealed when it scrolls
    in, and still revealed when it scrolls out again. *)
Example reveal_on_scroll_trace :
  isVisible (steps mounted
               [Effect (Some 7%N); Notify [{| isIntersecting := false |}]])
  = false
  ∧ steps mounted
      [Effect (Some 7%N); Notify [{| isIntersecting := false |}];
       Notify [{| isIntersecting := true |}];
       Notify [{| isIntersecting := false |}]]
    = {| isVisible := true; targets := [] |}
  ∧ className true (js "delay") = js "reveal active delay"
  ∧ className false (js "delay") = js "reveal  delay".
Proof. by vm_compute. Qed.

(** C2, as stated, fails: an entry with [isIntersecting] true that is not
    the first of its batch is not read, and the flag stays false. *)
Lemma reveal_ignores_later_entry :
  reveals (Notify [{| isIntersecting := false |};
                   {| isIntersecting := true |}]) = false
  ∧ isVisible
      (steps mounted
         [Effect (Some 7%N);
          Notify [{| isIntersecting := false |};
                  {| isIntersecting := true |}]]) = false
  ∧ targets
      (steps mounted
         [Effect (Some 7%N);
          Notify [{| isIntersecting := false |};
                  {| isIntersecting := true |}]]) = [7%N].
Proof. by vm_compute. Qed.

End RevealOnScrollClaims.

(** ** Lookups of elements that are missing *)

Section MissingElement.
Import JS Platform React.

(** C3.  When the element it looks up is missing, each of these does
    nothing: the cursor hook registers no listener and returns no cleanup when
    [.cursor-dot] or [.cursor-outline] is missing; [scrollToSection] neither
    scrolls nor queues a state update, so [scrolled] and [mobileMenuOpen]
    keep their values; the scroll buttons of [Hero] and [Methodology] call
    nothing. *)
Theorem missing_element_is_noop (document : Document) :
  (∀ win,
     querySelector document (js ".cursor-dot") = None
     ∨ querySelector document (js ".cursor-outline") = None →
     CustomCursor.useEffect document win = Run [] [] (Normal None))
  ∧ (∀ id s,
       getElementById document id = None →
       Navbar.scrollToSection document id = Run [] [] (Normal ())
       ∧ commit s (Navbar.scrollToSection document id) = s
       ∧ Navbar.mobileMenuOpen (commit s (Navbar.scrollToSection document id))
         = Navbar.mobileMenuOpen s)
  ∧ (getElementById document (js "contato") = None →
     Hero.escalar_onClick document = Run [] [] (Normal ())
     ∧ Methodology.diagnostico_onClick document = Run [] [] (Normal ()))
  ∧ (getElementById document (js "solucoes") = None →
     Hero.conhecer_onClick document = Run [] [] (Normal ())).
Proof.
  repeat split.
  - intros win [H|H]; unfold CustomCursor.useEffect; rewrite H; [done|].
    by destruct (querySelector document (js ".cursor-dot")).
  - unfold Navbar.scrollToSection. by rewrite H.
  - unfold Navbar.scrollToSection. by rewrite H.
  - unfold Navbar.scrollToSection. by rewrite H.
  - unfold Hero.escalar_onClick, Hero.scroll_button. by rewrite H.
  - unfold Methodology.diagnostico_onClick, Hero.scroll_button. by rewrite H.
  - intros H. unfold Hero.conhecer_onClick, Hero.scroll_button. by rewrite H.
Qed.

(** The document of an empty page. *)
Lemma missing_element_is_noop_witness :
  CustomCursor.useEffect
    {| querySelector := λ _, None; querySelectorAll := λ _, [];
       getElementById := λ _, None |}
    {| scrollY := 0; ontouchstart_in_window := false; maxTouchPoints := 0 |}
  = Run [] [] (Normal None)
  ∧ Navbar.mobileMenuOpen
      (commit {| Navbar.scrolled := true; Navbar.mobileMenuOpen := true |}
         (Navbar.scrollToSection
            {| querySelector := λ _, None; querySelectorAll := λ _, [];
               getElementById := λ _, None |} (js "sobre"))) = true
  ∧ Hero.escalar_onClick
      {| querySelector := λ _, None; querySelectorAll := λ _, [];
         getElementById := λ _, None |} = Run [] [] (Normal ())
  ∧ Hero.conhecer_onClick
      {| querySelector := λ _, None; querySelectorAll := λ _, [];
         getElementById := λ _, None |} = Run [] [] (Normal ()).
Proof.
  destruct (missing_element_is_noop
              {| querySelector := λ _, None; querySelectorAll := λ _, [];
                 getElementById := λ _, None |})
    as (Hcursor & Hnav & Hcontato & Hsolucoes).
  split; [apply Hcursor; left; reflexivity|].
  split.
  { apply (Hnav (js "sobre")
             {| Navbar.scrolled := true; Navbar.mobileMenuOpen := true |}).
    reflexivity. }
  split; [apply Hcontato; reflexivity|].
  apply Hsolucoes; reflexivity.
Defined.

(** When the element is there, [scrollToSection] scrolls to it and closes
    the mobile menu. *)
Example scrollToSection_found :
  effects
    (Navbar.scrollToSection
       {| querySelector := λ _, None; querySelectorAll := λ _, [];
          getElementById := λ id,
            if bool_decide (id = js "sobre") then Some 3 else None |}
       (js "sobre"))
  = [scrollIntoView 3 (js "smooth")]
  ∧ commit {| Navbar.scrolled := true; Navbar.mobileMenuOpen := true |}
      (Navbar.scrollToSection
         {| querySelector := λ _, None; querySelectorAll := λ _, [];
            getElementById := λ id,
              if bool_decide (id = js "sobre") then Some 3 else None |}
         (js "sobre"))
    = {| Navbar.scrolled := true; Navbar.mobileMenuOpen := false |}.
Proof. by vm_compute. Qed.

End MissingElement.

(** ** The hover state of the cursor outline *)

Section HoverState.
Import JS Platform React CustomCursor.

Lemma DOMTokenList_remove_add (token : list N) (tokens : list (list N)) :
  DOMTokenList_remove token (DOMTokenList_add token tokens)
  = DOMTokenList_remove token tokens.
Proof.
  unfold DOMTokenList_add, DOMTokenList_remove. case_bool_decide; [done|].
  rewrite filter_app, filter_cons_False, filter_nil by (intros ?; done).
  apply app_nil_r.
Qed.

Lemma DOMTokenList_add_add (token : list N) (tokens : list (list N)) :
  DOMTokenList_add token (DOMTokenList_add token tokens)
  = DOMTokenList_add token tokens.
Proof.
  unfold DOMTokenList_add. destruct (decide (token ∈ tokens)) as [H|H].
  - by rewrite !(bool_decide_eq_true_2 _ H).
  - rewrite (bool_decide_eq_false_2 _ H).
    rewrite bool_decide_eq_true_2; [done|].
    apply elem_of_app. right. by apply list_elem_of_singleton.
Qed.

Lemma DOMTokenList_remove_not_elem (token : list N) (tokens : list (list N)) :
  token ∉ DOMTokenList_remove token tokens.
Proof.
  unfold DOMTokenList_remove. intros [? _]%list_elem_of_filter. done.
Qed.

(** C6.  On the class list of the outline, [addHoverState] followed by
    [removeHoverState] leaves a list without [hovered], equal to the
    starting list with [hovered] removed; and [addHoverState] twice is
    [addHoverState] once. *)
Theorem hover_state_add_remove
    (classes : gmap element (list (list N))) (outline : element) :
  (js "hovered"
     ∉ apply_trace classes
         (effects (addHoverState (Some outline))
          ++ effects (removeHoverState (Some outline))) !!! outline)
  ∧ (apply_trace classes
       (effects (addHoverState (Some outline))
        ++ effects (removeHoverState (Some outline))) !!! outline)
    = filter (λ t, t ≠ js "hovered") (classes !!! outline)
  ∧ apply_trace classes
      (effects (addHoverState (Some outline))
       ++ effects (addHoverState (Some outline)))
    = apply_trace classes (effects (addHoverState (Some outline))).
Proof.
  cbn [addHoverState removeHoverState call effects app apply_trace foldl
       apply_effect].
  rewrite !lookup_total_insert_eq, DOMTokenList_remove_add,
    DOMTokenList_add_add, insert_insert_eq.
  split; [apply DOMTokenList_remove_not_elem|done].
Qed.

Example hover_state_on_outline :
  apply_trace {[ 1 := [js "cursor-outline"] ]}
    (effects (addHoverState (Some 1))) !!! 1
  = [js "cursor-outline"; js "hovered"]
  ∧ apply_trace {[ 1 := [js "cursor-outline"] ]}
      (effects (addHoverState (Some 1))
       ++ effects (removeHoverState (Some 1))) !!! 1
    = [js "cursor-outline"].
Proof. by vm_compute. Qed.

End HoverState.

(** ** The FAQ accordion *)

Section Accordion.
Import JS Platform React.

(** C10.  A click on an item's button commits the negation of the [isOpen]
    that the item showed; a second click, on the re-rendered item, brings the
    first value back; and in the accordion a click on item [i] changes item
    [i] alone. *)
Theorem faq_toggle_involution :
  (∀ isOpen, commit isOpen (FAQItem.onClick isOpen) = negb isOpen)
  ∧ (∀ isOpen,
       commit (commit isOpen (FAQItem.onClick isOpen))
         (FAQItem.onClick (commit isOpen (FAQItem.onClick isOpen)))
       = isOpen)
  ∧ (∀ (items : list bool) i, FAQ.click i items !! i = negb <$> items !! i)
  ∧ (∀ (items : list bool) i, FAQ.click i (FAQ.click i items) = items)
  ∧ (∀ (items : list bool) i j,
       i ≠ j → FAQ.click i items !! j = items !! j).
Proof.
  assert (∀ (items : list bool) i,
            FAQ.click i items !! i = negb <$> items !! i) as Hi.
  { intros items i. unfold FAQ.click.
    destruct (items !! i) as [b|] eqn:E; [|by rewrite E].
    rewrite list_lookup_insert_eq; [done|]. by eapply lookup_lt_Some. }
  split; [by intros []|]. split; [by intros []|]. split; [exact Hi|]. split.
  - intros items i. unfold FAQ.click at 1. rewrite Hi.
    destruct (items !! i) as [b|] eqn:E; cbn; [|by unfold FAQ.click; rewrite E].
    unfold FAQ.click. rewrite E, list_insert_insert_eq.
    apply list_insert_id. rewrite E. by destruct b.
  - intros items i j Hij. unfold FAQ.click.
    destruct (items !! i); [|done]. by apply list_lookup_insert_ne.
Qed.

Lemma faq_toggle_involution_witness :
  FAQ.click 1 FAQ.initial !! 2%nat = FAQ.initial !! 2%nat.
Proof.
  destruct faq_toggle_involution as (_ & _ & _ & _ & Hother).
  apply Hother. lia.
Defined.

Example faq_clicks :
  FAQ.click 1 FAQ.initial = [false; true; false; false]
  ∧ FAQ.click 3 (FAQ.click 1 FAQ.initial) = [false; true; false; true]
  ∧ FAQ.click 1 (FAQ.click 3 (FAQ.click 1 FAQ.initial))
    = [false; false; false; true].
Proof. by vm_compute. Qed.

End Accordion.

(** ** The order of the sections *)

Section Order.
Import App.

(** C5.  [App] renders each section once, and in this order: the hero
    before the services list, the services list before the testimonials
    ([Feedbacks]), the testimonials before the FAQ accordion, and the FAQ
    accordion before the contact form. *)
Theorem sections_in_order :
  NoDup children
  ∧ renders_before "Hero" "Services"
  ∧ renders_before "Services" "Feedbacks"
  ∧ renders_before "Feedbacks" "FAQ"
  ∧ renders_before "FAQ" "ContactForm".
Proof.
  split.
  { apply (bool_decide_unpack _). by vm_compute. }
  split; [exists 2%nat, 4%nat|]; [by repeat split; try lia|].
  split; [exists 4%nat, 10%nat|]; [by repeat split; try lia|].
  split; [exists 10%nat, 12%nat|exists 12%nat, 13%nat];
    by repeat split; try lia.
Qed.

End Order.

(** ** What the page does to the outside *)

Section Effects.
Import JS Platform React App.













End Effects.

(** ** The state of the components *)

Section StateCells.
Import JS Platform React App.



End StateCells.

(** * Further properties of the code *)

(** ** The alphabet and the shape of an encoded string *)

Section EncodeProperties.
Import JS.

Lemma lor_lt_pow2 (a b n : N) : a < 2 ^ n → b < 2 ^ n → N.lor a b < 2 ^ n.
Proof.
  intros Ha Hb.
  destruct (N.eq_dec a 0) as [->|Ha0]; [by rewrite N.lor_0_l|].
  destruct (N.eq_dec b 0) as [->|Hb0]; [by rewrite N.lor_0_r|].
  assert (N.lor a b ≠ 0) as Hab by (rewrite N.lor_eq_0_iff; tauto).
  apply N.log2_lt_pow2; [lia|]. rewrite N.log2_lor.
  apply N.log2_lt_pow2 in Ha; [|lia]. apply N.log2_lt_pow2 in Hb; [|lia].
  lia.
Qed.

Lemma lor_byte (a b : N) : a < 256 → b < 256 → N.lor a b < 256.
Proof. apply (lor_lt_pow2 a b 8). Qed.

Lemma land_3F (x : N) : N.land x 0x3F < 64.
Proof.
  change 0x3F with (N.ones 6). rewrite N.land_ones.
  apply N.mod_upper_bound. done.
Qed.

Lemma shiftr_lt (x k q : N) : x < 2 ^ k * q → N.shiftr x k < q.
Proof.
  intros H. rewrite N.shiftr_div_pow2.
  apply N.Div0.div_lt_upper_bound. exact H.
Qed.

Lemma utf8_of_code_point_bytes (cp : N) :
  cp < 0x200000 → Forall (λ b, b < 256) (utf8_of_code_point cp).
Proof.
  intros Hcp. unfold utf8_of_code_point.
  destruct (N.ltb_spec cp 0x80); [repeat constructor; lia|].
  destruct (N.ltb_spec cp 0x800).
  { repeat constructor; apply lor_byte; try lia.
    - assert (N.shiftr cp 6 < 32) by (apply shiftr_lt; lia). lia.
    - pose proof (land_3F cp). lia. }
  destruct (N.ltb_spec cp 0x10000).
  { repeat constructor; apply lor_byte; try lia.
    - assert (N.shiftr cp 12 < 16) by (apply shiftr_lt; lia). lia.
    - pose proof (land_3F (N.shiftr cp 6)). lia.
    - pose proof (land_3F cp). lia. }
  repeat constructor; apply lor_byte; try lia.
  - assert (N.shiftr cp 18 < 8) by (apply shiftr_lt; lia). lia.
  - pose proof (land_3F (N.shiftr cp 12)). lia.
  - pose proof (land_3F (N.shiftr cp 6)). lia.
  - pose proof (land_3F cp). lia.
Qed.

Lemma hexDigit_unescaped (d : N) : d < 16 → unescaped (hexDigit d) = true.
Proof.
  intros H.
  assert (d ∈ (N.of_nat <$> seq 0 16)) as Hin.
  { apply list_elem_of_fmap. exists (N.to_nat d).
    split; [lia|]. apply elem_of_seq. lia. }
  cbn in Hin.
  repeat (apply elem_of_cons in Hin as [->|Hin]; [done|]).
  by apply elem_of_nil in Hin.
Qed.

Lemma percentEncode_safe (octet : N) :
  octet < 256 → Forall Session.url_safe (percentEncode octet).
Proof.
  intros H. unfold percentEncode.
  apply List.Forall_cons; [by right|].
  apply List.Forall_cons; [|apply List.Forall_cons; [|apply List.Forall_nil]];
    red.
  - left. apply hexDigit_unescaped. apply shiftr_lt. lia.
  - left. apply hexDigit_unescaped.
    change 0x0F with (N.ones 4). rewrite N.land_ones.
    pose proof (N.mod_upper_bound octet (2 ^ 4)). lia.
Qed.

Lemma escapeCodePoint_safe (cp : N) :
  cp < 0x200000 → Forall Session.url_safe (escapeCodePoint cp).
Proof.
  intros H%utf8_of_code_point_bytes. unfold escapeCodePoint.
  induction H as [|b bs Hb _ IH]; [constructor|].
  change ((b :: bs) ≫= percentEncode)
    with (percentEncode b ++ (bs ≫= percentEncode)).
  apply Forall_app. split; [by apply percentEncode_safe|exact IH].
Qed.

Lemma surrogate_pair_code_point (lead trail : N) :
  isLeadingSurrogate lead = true → isTrailingSurrogate trail = true →
  0x10000 ≤ UTF16SurrogatePairToCodePoint lead trail < 0x110000.
Proof.
  unfold isLeadingSurrogate, isTrailingSurrogate,
    UTF16SurrogatePairToCodePoint.
  rewrite !andb_true_iff, !N.leb_le. lia.
Qed.

Lemma Encode_alphabet (s r : list N) :
  Session.code_units s → Encode s = Some r → Forall Session.url_safe r.
Proof.
  unfold Session.code_units. revert r.
  induction s as [|c rest IH1 IH2] using code_units_ind; intros r Hs; cbn.
  { intros [= <-]. constructor. }
  apply Forall_cons in Hs as [Hc Hrest].
  destruct (unescaped c) eqn:Hu.
  { destruct (Encode rest) as [r'|]; [|done]. intros [= <-].
    constructor; [by red; left|by apply IH1]. }
  destruct (isLeadingSurrogate c) eqn:Hl.
  { destruct rest as [|d rest']; [done|].
    destruct (isTrailingSurrogate d) eqn:Ht; [|done].
    apply Forall_cons in Hrest as [_ Hrest'].
    destruct (Encode rest') as [r'|] eqn:E; [|done]. intros [= <-].
    apply Forall_app. split; [|by apply (IH2 _ _ eq_refl)].
    apply escapeCodePoint_safe.
    pose proof (surrogate_pair_code_point c d Hl Ht). lia. }
  destruct (isTrailingSurrogate c); [done|].
  destruct (Encode rest) as [r'|]; [|done]. intros [= <-].
  apply Forall_app. split; [|by apply IH1].
  apply escapeCodePoint_safe. lia.
Qed.

Lemma Encode_app (a b ra : list N) :
  Encode a = Some ra → Encode (a ++ b) = (ra ++.) <$> Encode b.
Proof.
  revert ra.
  induction a as [|c rest IH1 IH2] using code_units_ind; intros ra; cbn.
  { intros [= <-]. by destruct (Encode b). }
  destruct (unescaped c).
  { destruct (Encode rest) as [r'|]; [|done]. intros [= <-].
    rewrite (IH1 r') by done. by destruct (Encode b). }
  destruct (isLeadingSurrogate c).
  { destruct rest as [|d rest']; [done|]. cbn.
    destruct (isTrailingSurrogate d); [|done].
    destruct (Encode rest') as [r'|] eqn:E; [|done]. intros [= <-].
    rewrite (IH2 _ _ eq_refl r') by done.
    destruct (Encode b); cbn; [|done]. by rewrite app_assoc. }
  destruct (isTrailingSurrogate c); [done|].
  destruct (Encode rest) as [r'|]; [|done]. intros [= <-].
  rewrite (IH1 r') by done.
  destruct (Encode b); cbn; [|done]. by rewrite app_assoc.
Qed.

End EncodeProperties.

(** ** [ContactForm]: the URL of a submission *)

Section SubmissionProperties.
Import JS Platform React ContactForm Session.

Lemma opened_urls_submit (url target : list N) :
  opened_urls [preventDefault; window_open url target] = [url].
Proof. reflexivity. Qed.

Lemma handleSubmit_message (formData : gmap (list N) (list N))
    (name instagram niche objective : list N) :
  formData !! js "name" = Some name →
  formData !! js "instagram" = Some instagram →
  formData !! js "niche" = Some niche →
  formData !! js "objective" = Some objective →
  handleSubmit formData =
  match encodeURIComponent (message name instagram niche objective) with
  | Normal encoded =>
      Run [] [preventDefault;
              window_open (js "https://wa.me/5519999592852?text=" ++ encoded)
                (js "_blank")] (Normal ())
  | Throw e => Run [] [preventDefault] (Throw e)
  end.
Proof.
  intros Hn Hi Hc Ho. rewrite handleSubmit_unfold, Hn, Hi, Hc, Ho.
  unfold message, interpolate. cbn [from_option id]. reflexivity.
Qed.

Lemma code_units_literal (s : list N) :
  bool_decide (Forall (λ c, c < 0x10000) s) = true → code_units s.
Proof. apply bool_decide_eq_true_1. Qed.

Lemma Encode_message (name instagram niche objective en ei ec eo : list N) :
  Encode name = Some en → Encode instagram = Some ei →
  Encode niche = Some ec → Encode objective = Some eo →
  Encode (message name instagram niche objective)
  = Some (js ("*Nova%20Aplica%C3%A7%C3%A3o%20via%20Site%20Capturehouse*" +:+
              "%0A%0A*Nome%3A*%20")
          ++ en ++ js "%0A*Instagram%3A*%20"
          ++ ei ++ js "%0A*Atua%C3%A7%C3%A3o%3A*%20"
          ++ ec ++ js "%0A*Objetivo%3A*%20" ++ eo).
Proof.
  intros Hn Hi Hc Ho. unfold message.
  do 4 (erewrite Encode_app by (vm_compute; reflexivity)).
  rewrite (Encode_app name _ en Hn).
  do 2 (erewrite Encode_app by (vm_compute; reflexivity)).
  rewrite (Encode_app instagram _ ei Hi).
  do 2 (erewrite Encode_app by (vm_compute; reflexivity)).
  rewrite (Encode_app niche _ ec Hc).
  do 2 (erewrite Encode_app by (vm_compute; reflexivity)).
  rewrite Ho. by vm_compute.
Qed.

Lemma code_units_interpolate (formData : gmap (list N) (list N)) k :
  (∀ k v, formData !! k = Some v → code_units v) →
  code_units (interpolate (formData !! k)).
Proof.
  intros H. destruct (formData !! k) as [v|] eqn:E; [by eapply H|].
  by apply code_units_literal.
Qed.

(** X1.  Whatever the form holds, a URL that [handleSubmit] opens is the
    fixed prefix followed only by unreserved characters and percent signs:
    no space, line break, [&], [#] or non-ASCII unit of a value reaches the
    query string unescaped. *)
Theorem handleSubmit_url_safe (formData : gmap (list N) (list N)) :
  (∀ k v, formData !! k = Some v → code_units v) →
  ∀ url, url ∈ opened_urls (effects (handleSubmit formData)) →
         ∃ encoded,
           url = js "https://wa.me/5519999592852?text=" ++ encoded
           ∧ Forall url_safe encoded.
Proof.
  intros Hunits url. rewrite handleSubmit_unfold.
  unfold encodeURIComponent.
  destruct (Encode _) as [encoded|] eqn:E; cbn [effects];
    [|by intros ?%elem_of_nil].
  rewrite opened_urls_submit. intros ->%list_elem_of_singleton.
  exists encoded. split; [done|].
  eapply Encode_alphabet; [|exact E].
  unfold code_units.
  repeat (apply Forall_app; split);
    first [ by apply code_units_interpolate
          | by apply code_units_literal ].
Qed.

Lemma handleSubmit_url_safe_witness :
  ∃ encoded,
    js ("https://wa.me/5519999592852?text=" +:+
        "*Nova%20Aplica%C3%A7%C3%A3o%20via%20Site%20Capturehouse*%0A%0A" +:+
        "*Nome%3A*%20A%26B%0A*Instagram%3A*%20%23x%0A" +:+
        "*Atua%C3%A7%C3%A3o%3A*%20%0A*Objetivo%3A*%20a%20b")
    = js "https://wa.me/5519999592852?text=" ++ encoded
    ∧ Forall url_safe encoded.
Proof.
  apply (handleSubmit_url_safe (form (js "A&B") (js "#x") [] (js "a b"))).
  - intros k v H.
    assert (v ∈ [js "A&B"; js "#x"; []; js "a b"]) as Hv.
    { unfold form in H.
      repeat (apply lookup_insert_Some in H as [[_ <-]|[_ H]];
              [set_solver|]).
      by rewrite lookup_empty in H. }
    repeat (apply elem_of_cons in Hv as [->|Hv];
            [by apply code_units_literal|]).
    by apply elem_of_nil in Hv.
  - vm_compute. left.
Defined.

(** X2.  The opened URL is laid out field by field: the encoded header and
    labels are fixed text, and each value is encoded on its own, whatever
    the other values are. *)
Theorem handleSubmit_url_format
    (formData : gmap (list N) (list N))
    (name instagram niche objective en ei ec eo : list N) :
  formData !! js "name" = Some name →
  formData !! js "instagram" = Some instagram →
  formData !! js "niche" = Some niche →
  formData !! js "objective" = Some objective →
  Encode name = Some en → Encode instagram = Some ei →
  Encode niche = Some ec → Encode objective = Some eo →
  opened_urls (effects (handleSubmit formData))
  = [js ("https://wa.me/5519999592852?text=" +:+
         "*Nova%20Aplica%C3%A7%C3%A3o%20via%20Site%20Capturehouse*" +:+
         "%0A%0A*Nome%3A*%20")
     ++ en ++ js "%0A*Instagram%3A*%20"
     ++ ei ++ js "%0A*Atua%C3%A7%C3%A3o%3A*%20"
     ++ ec ++ js "%0A*Objetivo%3A*%20" ++ eo].
Proof.
  intros Hn Hi Hc Ho En Ei Ec Eo.
  rewrite (handleSubmit_message _ _ _ _ _ Hn Hi Hc Ho).
  unfold encodeURIComponent.
  rewrite (Encode_message _ _ _ _ _ _ _ _ En Ei Ec Eo).
  cbn [effects]. rewrite opened_urls_submit. by vm_compute.
Qed.

Lemma handleSubmit_url_format_witness :
  opened_urls
    (effects (handleSubmit
                (form (js "Ana") (js "@ana") (js "Alto Padrão") (js "a b"))))
  = [js ("https://wa.me/5519999592852?text=" +:+
         "*Nova%20Aplica%C3%A7%C3%A3o%20via%20Site%20Capturehouse*" +:+
         "%0A%0A*Nome%3A*%20")
     ++ js "Ana" ++ js "%0A*Instagram%3A*%20"
     ++ js "%40ana" ++ js "%0A*Atua%C3%A7%C3%A3o%3A*%20"
     ++ js "Alto%20Padr%C3%A3o" ++ js "%0A*Objetivo%3A*%20" ++ js "a%20b"].
Proof.
  apply (handleSubmit_url_format
           (form (js "Ana") (js "@ana") (js "Alto Padrão") (js "a b"))
           (js "Ana") (js "@ana") (js "Alto Padrão") (js "a b"));
    reflexivity.
Defined.

(** X3.  A string made of unreserved characters only (letters, digits and
    [- _ . ! ~ * ' ( )]) is encoded as itself. *)
Theorem Encode_unreserved_verbatim (s : list N) :
  Forall (λ c, unescaped c = true) s → Encode s = Some s.
Proof.
  induction 1 as [|c s Hc Hs IH]; [done|].
  cbn. by rewrite Hc, IH.
Qed.

Lemma Encode_unreserved_verbatim_witness :
  Encode (js "Maria_Silva-2025") = Some (js "Maria_Silva-2025").
Proof.
  apply Encode_unreserved_verbatim.
  apply (bool_decide_unpack _). by vm_compute.
Defined.

(** X4.  [handleSubmit] reads the four fields and nothing else: two form
    objects that agree on them, whatever other properties they carry, are
    submitted alike. *)
Theorem handleSubmit_reads_four_fields
    (formData1 formData2 : gmap (list N) (list N)) :
  (∀ k, k ∈ fields → formData1 !! k = formData2 !! k) →
  handleSubmit formData1 = handleSubmit formData2.
Proof.
  intros H. rewrite !handleSubmit_unfold.
  rewrite (H (js "name")), (H (js "instagram")), (H (js "niche")),
    (H (js "objective")); [done|..]; unfold fields; set_solver.
Qed.

Lemma handleSubmit_reads_four_fields_witness :
  handleSubmit (<[js "email" := js "x"]> (form (js "Ana") [] [] []))
  = handleSubmit (form (js "Ana") [] [] []).
Proof.
  apply handleSubmit_reads_four_fields. intros k Hk.
  apply lookup_insert_ne. intros <-. revert Hk.
  apply (bool_decide_unpack _). by vm_compute.
Defined.

End SubmissionProperties.

(** ** [ContactForm]: typing into the form *)

Section TypingProperties.
Import JS Platform React ContactForm Session.

Lemma changes_snoc (formData : gmap (list N) (list N)) es e :
  changes formData (es ++ [e])
  = <[target_name e := target_value e]> (changes formData es).
Proof. unfold changes. by rewrite foldl_snoc. Qed.

(** X5.  After any sequence of change events a property of the form object
    holds the value of the last event whose target had that name; a
    property that no event named keeps what it held. *)
Theorem changes_last_write_wins
    (formData : gmap (list N) (list N)) (es : list ChangeEvent) (k : list N) :
  changes formData es !! k
  = match last_value k es with
    | Some value => Some value
    | None => formData !! k
    end.
Proof.
  induction es as [|e es IH] using rev_ind; [done|].
  rewrite changes_snoc. unfold last_value in *. rewrite filter_app.
  destruct (decide (target_name e = k)) as [<-|Hne].
  - rewrite filter_cons_True, filter_nil by done.
    by rewrite last_snoc, lookup_insert_eq.
  - rewrite filter_cons_False, filter_nil, app_nil_r by done.
    by rewrite lookup_insert_ne.
Qed.

Lemma changes_keeps_keys (formData : gmap (list N) (list N)) es k :
  is_Some (formData !! k) → is_Some (changes formData es !! k).
Proof.
  intros H. induction es as [|e es IH] using rev_ind; [done|].
  rewrite changes_snoc, lookup_insert_is_Some'. by right.
Qed.

(** X6.  Typing never removes a field: in every form state reached from
    the initial one, each of [name], [instagram], [niche] and [objective]
    is present, so a submission never interpolates [undefined]. *)
Theorem reachable_form_has_four_fields (es : list ChangeEvent) :
  ∃ name instagram niche objective,
    changes initial es !! js "name" = Some name
    ∧ changes initial es !! js "instagram" = Some instagram
    ∧ changes initial es !! js "niche" = Some niche
    ∧ changes initial es !! js "objective" = Some objective
    ∧ handleSubmit (changes initial es)
      = match encodeURIComponent (message name instagram niche objective)
        with
        | Normal encoded =>
            Run [] [preventDefault;
                    window_open
                      (js "https://wa.me/5519999592852?text=" ++ encoded)
                      (js "_blank")] (Normal ())
        | Throw e => Run [] [preventDefault] (Throw e)
        end.
Proof.
  destruct (changes_keeps_keys initial es (js "name")) as [n Hn]; [done|].
  destruct (changes_keeps_keys initial es (js "instagram")) as [i Hi];
    [done|].
  destruct (changes_keeps_keys initial es (js "niche")) as [c Hc]; [done|].
  destruct (changes_keeps_keys initial es (js "objective")) as [o Ho];
    [done|].
  exists n, i, c, o. repeat (split; [done|]).
  by apply handleSubmit_message.
Qed.

End TypingProperties.

(** ** [ContactForm]: what the recipient can read back *)

Section ReadingBack.
Import JS Platform React ContactForm Session.

Local Ltac enum d n :=
  let Hin := fresh in
  assert (d ∈ (N.of_nat <$> seq 0 n)) as Hin
    by (apply list_elem_of_fmap; exists (N.to_nat d);
        split; [lia|apply elem_of_seq; lia]);
  cbn in Hin;
  repeat (apply elem_of_cons in Hin as [->|Hin]; [done|]);
  by apply elem_of_nil in Hin.

Lemma unhex_hexDigit d : d < 16 → unhex (hexDigit d) = d.
Proof. intros H. enum d 16%nat. Qed.

Lemma lor_C0 x : x < 32 → N.lor 0xC0 x = 0xC0 + x.
Proof. intros H. enum x 32%nat. Qed.
Lemma lor_80 x : x < 64 → N.lor 0x80 x = 0x80 + x.
Proof. intros H. enum x 64%nat. Qed.
Lemma lor_E0 x : x < 16 → N.lor 0xE0 x = 0xE0 + x.
Proof. intros H. enum x 16%nat. Qed.
Lemma lor_F0 x : x < 8 → N.lor 0xF0 x = 0xF0 + x.
Proof. intros H. enum x 8%nat. Qed.

Lemma shiftr_div x k : N.shiftr x k = x / 2 ^ k.
Proof. apply N.shiftr_div_pow2. Qed.

Lemma land_3F_mod x : N.land x 0x3F = x mod 64.
Proof. change 0x3F with (N.ones 6). by rewrite N.land_ones. Qed.

Lemma read_octet_percentEncode b rest :
  b < 256 → read_octet (percentEncode b ++ rest) = Some (b, rest).
Proof.
  intros H. unfold percentEncode, read_octet. cbn [app].
  rewrite !unhex_hexDigit.
  - do 2 f_equal. rewrite shiftr_div. change 0x0F with (N.ones 4).
    rewrite N.land_ones. pose proof (N.div_mod b (2 ^ 4)). lia.
  - change 0x0F with (N.ones 4). rewrite N.land_ones.
    pose proof (N.mod_upper_bound b (2 ^ 4)). lia.
  - rewrite shiftr_div. apply N.Div0.div_lt_upper_bound. lia.
Qed.

Lemma utf8_of_code_point_arith cp :
  cp < 0x200000 →
  utf8_of_code_point cp =
  if cp <? 0x80 then [cp]
  else if cp <? 0x800 then [0xC0 + cp / 64; 0x80 + cp mod 64]
  else if cp <? 0x10000 then
    [0xE0 + cp / 4096; 0x80 + (cp / 64) mod 64; 0x80 + cp mod 64]
  else [0xF0 + cp / 262144; 0x80 + (cp / 4096) mod 64;
        0x80 + (cp / 64) mod 64; 0x80 + cp mod 64].
Proof.
  intros H. unfold utf8_of_code_point.
  rewrite !land_3F_mod, !shiftr_div.
  change (2 ^ 6) with 64. change (2 ^ 12) with 4096.
  change (2 ^ 18) with 262144.
  destruct (N.ltb_spec cp 0x80); [done|].
  destruct (N.ltb_spec cp 0x800).
  { rewrite lor_C0, lor_80; [done|..].
    - apply N.mod_upper_bound; lia.
    - apply N.Div0.div_lt_upper_bound; lia. }
  destruct (N.ltb_spec cp 0x10000).
  { rewrite lor_E0, !lor_80; [done|..];
      try (apply N.mod_upper_bound; lia).
    apply N.Div0.div_lt_upper_bound; lia. }
  rewrite lor_F0, !lor_80; [done|..];
    try (apply N.mod_upper_bound; lia).
  apply N.Div0.div_lt_upper_bound; lia.
Qed.

Lemma decode_head_percent b0 X :
  b0 < 256 →
  decode_head (percentEncode b0 ++ X) =
  if b0 <? 0x80 then Some ([b0], X)
  else
    '(b1, r1) ← read_octet X;
    if b0 <? 0xE0 then
      Some (utf16_of_code_point ((b0 - 0xC0) * 64 + (b1 - 0x80)), r1)
    else
      '(b2, r2) ← read_octet r1;
      if b0 <? 0xF0 then
        Some (utf16_of_code_point
                ((b0 - 0xE0) * 4096 + (b1 - 0x80) * 64 + (b2 - 0x80)),
              r2)
      else
        '(b3, r3) ← read_octet r2;
        Some (utf16_of_code_point
                ((b0 - 0xF0) * 262144 + (b1 - 0x80) * 4096
                 + (b2 - 0x80) * 64 + (b3 - 0x80)),
              r3).
Proof.
  intros H. pose proof (read_octet_percentEncode b0 X H) as Hr.
  unfold decode_head. unfold percentEncode at 1. cbn [app].
  change (0x25 :: hexDigit (N.shiftr b0 4) :: hexDigit (N.land b0 0x0F) :: X)
    with (percentEncode b0 ++ X).
  rewrite Hr. reflexivity.
Qed.

Local Ltac divmod x k :=
  pose proof (N.div_mod x k ltac:(lia));
  pose proof (N.mod_upper_bound x k ltac:(lia)).

Lemma ltb_true a b : a < b → (a <? b) = true.
Proof. apply N.ltb_lt. Qed.
Lemma ltb_false a b : b ≤ a → (a <? b) = false.
Proof. apply N.ltb_ge. Qed.

Lemma decode_escape cp rest :
  cp < 0x110000 →
  decode_head (escapeCodePoint cp ++ rest)
  = Some (utf16_of_code_point cp, rest).
Proof.
  intros H. unfold escapeCodePoint.
  rewrite utf8_of_code_point_arith by lia.
  divmod cp 64. divmod (cp / 64) 64. divmod (cp / 4096) 64.
  assert (cp / 64 / 64 = cp / 4096) as E1
    by (rewrite N.Div0.div_div; done).
  assert (cp / 4096 / 64 = cp / 262144) as E2
    by (rewrite N.Div0.div_div; done).
  rewrite E1 in *. rewrite E2 in *. clear E1 E2.
  set (q1 := cp / 64) in *. set (r1 := cp mod 64) in *.
  set (q2 := cp / 4096) in *. set (r2 := q1 mod 64) in *.
  set (q3 := cp / 262144) in *. set (r3 := q2 mod 64) in *.
  clearbody q1 r1 q2 r2 q3 r3.
  destruct (N.ltb_spec cp 0x80).
  { cbn [mbind list_bind app]. rewrite app_nil_r.
    rewrite decode_head_percent by lia. rewrite ltb_true by lia.
    unfold utf16_of_code_point. by rewrite ltb_true by lia. }
  destruct (N.ltb_spec cp 0x800).
  { cbn [mbind list_bind app]. rewrite app_nil_r, <- app_assoc.
    rewrite decode_head_percent by lia. rewrite ltb_false by lia.
    rewrite read_octet_percentEncode by lia. cbn [mbind option_bind].
    rewrite ltb_true by lia. do 2 f_equal. apply (f_equal utf16_of_code_point). lia. }
  destruct (N.ltb_spec cp 0x10000).
  { cbn [mbind list_bind app]. rewrite app_nil_r, <- !app_assoc.
    rewrite decode_head_percent by lia. rewrite ltb_false by lia.
    rewrite read_octet_percentEncode by lia. cbn [mbind option_bind].
    rewrite ltb_false by lia.
    rewrite read_octet_percentEncode by lia. cbn [mbind option_bind].
    rewrite ltb_true by lia. do 2 f_equal. apply (f_equal utf16_of_code_point). lia. }
  cbn [mbind list_bind app]. rewrite app_nil_r, <- !app_assoc.
  rewrite decode_head_percent by lia. rewrite ltb_false by lia.
  rewrite read_octet_percentEncode by lia. cbn [mbind option_bind].
  rewrite ltb_false by lia.
  rewrite read_octet_percentEncode by lia. cbn [mbind option_bind].
  rewrite ltb_false by lia.
  rewrite read_octet_percentEncode by lia. cbn [mbind option_bind].
  do 2 f_equal. apply (f_equal utf16_of_code_point). lia.
Qed.

Lemma utf16_of_pair lead trail :
  isLeadingSurrogate lead = true → isTrailingSurrogate trail = true →
  utf16_of_code_point (UTF16SurrogatePairToCodePoint lead trail)
  = [lead; trail].
Proof.
  unfold isLeadingSurrogate, isTrailingSurrogate,
    UTF16SurrogatePairToCodePoint, utf16_of_code_point.
  rewrite !andb_true_iff, !N.leb_le. intros [? ?] [? ?].
  rewrite ltb_false by lia. rewrite shiftr_div.
  change 0x3FF with (N.ones 10). rewrite N.land_ones.
  change (2 ^ 10) with 1024.
  replace ((lead - 55296) * 1024 + (trail - 56320) + 65536 - 65536)
    with ((trail - 56320) + (lead - 55296) * 1024) by lia.
  rewrite N.div_add, N.Div0.mod_add by done.
  rewrite N.div_small, N.mod_small by lia.
  f_equal; [lia|f_equal; lia].
Qed.

Lemma unescaped_not_percent c : unescaped c = true → (c =? 0x25) = false.
Proof.
  intros H. apply N.eqb_neq. intros ->. by vm_compute in H.
Qed.

Lemma decode_head_Encode (s r : list N) :
  code_units s → Encode s = Some r →
  (s = [] ∧ r = [])
  ∨ ∃ k s' r', s = k ++ s' ∧ (length s' < length s)%nat
               ∧ Encode s' = Some r' ∧ decode_head r = Some (k, r').
Proof.
  unfold code_units. destruct s as [|c rest]; cbn.
  { intros _ [= <-]. by left. }
  intros [Hc Hrest]%Forall_cons.
  destruct (unescaped c) eqn:Hu.
  { destruct (Encode rest) as [r'|] eqn:E; [|done]. intros [= <-].
    right. exists [c], rest, r'.
    split; [done|]. split; [cbn; lia|]. split; [done|].
    cbn. by rewrite unescaped_not_percent. }
  destruct (isLeadingSurrogate c) eqn:Hl.
  { destruct rest as [|d rest']; [done|].
    destruct (isTrailingSurrogate d) eqn:Ht; [|done].
    destruct (Encode rest') as [r'|] eqn:E; [|done]. intros [= <-].
    right. exists [c; d], rest', r'.
    split; [done|]. split; [cbn; lia|]. split; [done|].
    pose proof (surrogate_pair_code_point c d Hl Ht).
    rewrite decode_escape by lia. by rewrite utf16_of_pair. }
  destruct (isTrailingSurrogate c) eqn:Ht; [done|].
  destruct (Encode rest) as [r'|] eqn:E; [|done]. intros [= <-].
  right. exists [c], rest, r'.
  split; [done|]. split; [cbn; lia|]. split; [done|].
  rewrite decode_escape by lia.
  unfold utf16_of_code_point. by rewrite ltb_true by lia.
Qed.

Lemma Encode_inj_aux (n : nat) (s1 s2 r : list N) :
  (length s1 ≤ n)%nat → code_units s1 → code_units s2 →
  Encode s1 = Some r → Encode s2 = Some r → s1 = s2.
Proof.
  revert s1 s2 r. induction n as [|n IH]; intros s1 s2 r Hlen U1 U2 E1 E2;
    destruct (decode_head_Encode _ _ U1 E1)
      as [[-> ->]|(k1 & s1' & r1' & -> & L1 & E1' & D1)];
    destruct (decode_head_Encode _ _ U2 E2)
      as [[-> Hr]|(k2 & s2' & r2' & -> & L2 & E2' & D2)];
    try done; try (subst; done); try lia.
  rewrite D1 in D2. injection D2 as <- <-.
  apply Forall_app in U1 as [_ U1]. apply Forall_app in U2 as [_ U2].
  f_equal. apply (IH s1' s2' r1'); [lia|done..].
Qed.

Lemma split_at_separator {A} (x : A) (a1 a2 r1 r2 : list A) :
  x ∉ a1 → x ∉ a2 → a1 ++ x :: r1 = a2 ++ x :: r2 → a1 = a2 ∧ r1 = r2.
Proof.
  revert a2. induction a1 as [|y a1 IH]; intros [|z a2] H1 H2; cbn.
  - by intros [= ->].
  - intros [= -> _]. by apply not_elem_of_cons in H2 as [? _].
  - intros [= -> _]. by apply not_elem_of_cons in H1 as [? _].
  - intros [= -> H]. apply not_elem_of_cons in H1 as [_ H1].
    apply not_elem_of_cons in H2 as [_ H2].
    destruct (IH a2 H1 H2 H) as [-> ->]. done.
Qed.

Lemma framed_inj {A} (x : A) (sep a d e f g : list A)
    (n1 i1 c1 o1 n2 i2 c2 o2 : list A) :
  sep = [x] →
  x ∉ n1 → x ∉ i1 → x ∉ c1 → x ∉ n2 → x ∉ i2 → x ∉ c2 →
  a ++ sep ++ sep ++ d ++ n1 ++ sep ++ e ++ i1 ++ sep ++ f ++ c1 ++ sep
    ++ g ++ o1
  = a ++ sep ++ sep ++ d ++ n2 ++ sep ++ e ++ i2 ++ sep ++ f ++ c2 ++ sep
      ++ g ++ o2 →
  n1 = n2 ∧ i1 = i2 ∧ c1 = c2 ∧ o1 = o2.
Proof.
  intros -> Hn1 Hi1 Hc1 Hn2 Hi2 Hc2 H.
  do 4 apply app_inv_head in H.
  apply split_at_separator in H as [-> H]; [|done..].
  apply app_inv_head in H.
  apply split_at_separator in H as [-> H]; [|done..].
  apply app_inv_head in H.
  apply split_at_separator in H as [-> H]; [|done..].
  apply app_inv_head in H. done.
Qed.

Lemma message_eq (name instagram niche objective : list N) :
  message name instagram niche objective
  = js "*Nova Aplicação via Site Capturehouse*" ++ LF ++ LF ++
    js "*Nome:* " ++ name ++ LF ++
    js "*Instagram:* " ++ instagram ++ LF ++
    js "*Atuação:* " ++ niche ++ LF ++
    js "*Objetivo:* " ++ objective.
Proof. reflexivity. Qed.

Lemma message_inj (n1 i1 c1 o1 n2 i2 c2 o2 : list N) :
  0x0A ∉ n1 → 0x0A ∉ i1 → 0x0A ∉ c1 →
  0x0A ∉ n2 → 0x0A ∉ i2 → 0x0A ∉ c2 →
  message n1 i1 c1 o1 = message n2 i2 c2 o2 →
  n1 = n2 ∧ i1 = i2 ∧ c1 = c2 ∧ o1 = o2.
Proof.
  intros Hn1 Hi1 Hc1 Hn2 Hi2 Hc2 H. rewrite !message_eq in H.
  exact (framed_inj 0x0A LF _ _ _ _ _ _ _ _ _ _ _ _ _ eq_refl
           Hn1 Hi1 Hc1 Hn2 Hi2 Hc2 H).
Qed.

(** X7.  [encodeURIComponent] loses nothing: two JavaScript strings with
    the same encoding are the same string. *)
Theorem Encode_injective (s1 s2 r : list N) :
  code_units s1 → code_units s2 →
  Encode s1 = Some r → Encode s2 = Some r → s1 = s2.
Proof. apply (Encode_inj_aux (length s1)). done. Qed.

Lemma Encode_injective_witness : js "São Paulo" = js "São Paulo".
Proof.
  apply (Encode_injective (js "São Paulo") (js "São Paulo")
           (js "S%C3%A3o%20Paulo")).
  - by apply code_units_literal.
  - by apply code_units_literal.
  - by vm_compute.
  - by vm_compute.
Defined.

Lemma form_lookups (name instagram niche objective : list N) :
  form name instagram niche objective !! js "name" = Some name
  ∧ form name instagram niche objective !! js "instagram" = Some instagram
  ∧ form name instagram niche objective !! js "niche" = Some niche
  ∧ form name instagram niche objective !! js "objective" = Some objective.
Proof. by vm_compute. Qed.

Lemma code_units_message (n i c o : list N) :
  code_units n → code_units i → code_units c → code_units o →
  code_units (message n i c o).
Proof.
  intros Hn Hi Hc Ho. rewrite message_eq. unfold code_units.
  repeat (apply Forall_app; split);
    first [ done | by apply code_units_literal ].
Qed.

(** X8.  The opened URL tells the four values: when the name, the
    Instagram handle and the niche hold no line feed (they come from
    one-line inputs), two forms that open the same URL hold the same four
    values. *)
Theorem submitted_url_determines_fields
    (n1 i1 c1 o1 n2 i2 c2 o2 url : list N) :
  Forall code_units [n1; i1; c1; o1; n2; i2; c2; o2] →
  Forall (λ s, 0x0A ∉ s) [n1; i1; c1; n2; i2; c2] →
  url ∈ opened_urls (effects (handleSubmit (form n1 i1 c1 o1))) →
  url ∈ opened_urls (effects (handleSubmit (form n2 i2 c2 o2))) →
  n1 = n2 ∧ i1 = i2 ∧ c1 = c2 ∧ o1 = o2.
Proof.
  intros HU HL.
  repeat (apply Forall_cons in HU as [? HU]).
  repeat (apply Forall_cons in HL as [? HL]).
  destruct (form_lookups n1 i1 c1 o1) as (Ln1 & Li1 & Lc1 & Lo1).
  destruct (form_lookups n2 i2 c2 o2) as (Ln2 & Li2 & Lc2 & Lo2).
  rewrite (handleSubmit_message _ _ _ _ _ Ln1 Li1 Lc1 Lo1).
  rewrite (handleSubmit_message _ _ _ _ _ Ln2 Li2 Lc2 Lo2).
  unfold encodeURIComponent.
  destruct (Encode (message n1 i1 c1 o1)) as [r1|] eqn:E1; cbn [effects];
    [|by intros ?%elem_of_nil].
  destruct (Encode (message n2 i2 c2 o2)) as [r2|] eqn:E2; cbn [effects];
    [|by intros _ ?%elem_of_nil].
  rewrite !opened_urls_submit.
  intros ->%list_elem_of_singleton Hurl%list_elem_of_singleton.
  apply app_inv_head in Hurl. subst r2.
  apply message_inj; try done.
  eapply (Encode_inj_aux _ _ _ r1 (le_n _)); eauto using code_units_message.
Qed.

Lemma submitted_url_determines_fields_witness :
  js "Ana" = js "Ana" ∧ js "@ana" = js "@ana" ∧ js "Luxo" = js "Luxo"
  ∧ js "VGV" ++ LF ++ js "2025" = js "VGV" ++ LF ++ js "2025".
Proof.
  apply (submitted_url_determines_fields
           (js "Ana") (js "@ana") (js "Luxo") (js "VGV" ++ LF ++ js "2025")
           (js "Ana") (js "@ana") (js "Luxo") (js "VGV" ++ LF ++ js "2025")
           (js ("https://wa.me/5519999592852?text=" +:+
                "*Nova%20Aplica%C3%A7%C3%A3o%20via%20Site%20Capturehouse*" +:+
                "%0A%0A*Nome%3A*%20Ana%0A*Instagram%3A*%20%40ana%0A" +:+
                "*Atua%C3%A7%C3%A3o%3A*%20Luxo%0A" +:+
                "*Objetivo%3A*%20VGV%0A2025"))).
  - repeat (apply List.Forall_cons; [by apply code_units_literal|]).
    apply List.Forall_nil.
  - repeat (apply List.Forall_cons;
            [apply (bool_decide_unpack _); by vm_compute|]).
    apply List.Forall_nil.
  - vm_compute. left.
  - vm_compute. left.
Defined.

(** Without the one-line condition the message is ambiguous: a line feed
    in the name can imitate the next label. *)
Example message_collision :
  message (js "a" ++ LF ++ js "*Instagram:* b") (js "c") [] []
  = message (js "a") (js "b" ++ LF ++ js "*Instagram:* c") [] [].
Proof. by vm_compute. Qed.

End ReadingBack.

(** ** [CustomCursor]: registering and unregistering *)

Section CursorProperties.
Import JS Platform React CustomCursor Session.

Lemma forEach_total {S A} (xs : list A) (f : A → run S ()) :
  (∀ x, result (f x) = Normal ()) →
  result (forEach xs f) = Normal ()
  ∧ effects (forEach xs f) = xs ≫= λ x, effects (f x).
Proof.
  intros Hf. induction xs as [|x xs [IHr IHe]]; [done|].
  cbn [forEach]. unfold bind. rewrite Hf. cbn [result effects].
  by rewrite IHr, IHe.
Qed.

Lemma fmap_bind_list {A B C} (g : B → C) (f : A → list B) (xs : list A) :
  g <$> (xs ≫= f) = xs ≫= λ x, g <$> f x.
Proof.
  induction xs as [|x xs IH]; [done|].
  cbn. by rewrite fmap_app, IH.
Qed.

Lemma length_bind_const {A B} (n : nat) (h : A → list B) (xs : list A) :
  (∀ x, length (h x) = n) → length (xs ≫= h) = (n * length xs)%nat.
Proof.
  intros Hh. induction xs as [|x xs IH]; cbn; [lia|].
  rewrite length_app, Hh, IH. lia.
Qed.

Lemma cleanup_effects (els : list element) :
  effects (cleanup els)
  = removeEventListener window (js "mousemove") L_moveCursor
    :: (els ≫= λ el,
          [removeEventListener (node el) (js "mouseenter") L_addHoverState;
           removeEventListener (node el) (js "mouseleave")
             L_removeHoverState]).
Proof.
  unfold cleanup. rewrite effects_bind. cbn [call result effects app].
  f_equal. by apply forEach_total.
Qed.

(** X9.  The cleanup takes back exactly what the hook registered.  When
    the hook returns a cleanup, it has called [addEventListener] for
    [mousemove] on the window and then, for every interactive element in
    document order, for [mouseenter] and [mouseleave] on that element, and
    nothing else; the cleanup calls [removeEventListener] with the same
    targets, event types and listeners in the same order, and nothing else;
    so the hook registers one listener on the window and two on every
    interactive element.  When the hook returns no cleanup it has
    registered nothing.  The hook never throws. *)
Theorem cursor_cleanup_mirrors_setup (document : Document) (win : Window) :
  match result (useEffect document win) with
  | Normal (Some interactiveElements) =>
      effects (useEffect document win)
      = addEventListener window (js "mousemove") L_moveCursor
        :: (interactiveElements ≫= λ el,
              [addEventListener (node el) (js "mouseenter") L_addHoverState;
               addEventListener (node el) (js "mouseleave")
                 L_removeHoverState])
      ∧ effects (cleanup interactiveElements)
        = removeEventListener window (js "mousemove") L_moveCursor
          :: (interactiveElements ≫= λ el,
                [removeEventListener (node el) (js "mouseenter")
                   L_addHoverState;
                 removeEventListener (node el) (js "mouseleave")
                   L_removeHoverState])
      ∧ effects (cleanup interactiveElements)
        = unregister <$> effects (useEffect document win)
      ∧ length (effects (useEffect document win))
        = (1 + 2 * length interactiveElements)%nat
      ∧ interactiveElements
        = querySelectorAll document
            (js "a, button, input, textarea, .interactive")
  | Normal None => effects (useEffect document win) = []
  | Throw _ => False
  end.
Proof.
  unfold useEffect.
  destruct (querySelector _ _); [|done].
  destruct (querySelector _ _); [|done].
  destruct (_ || _); [done|].
  set (els := querySelectorAll _ _).
  unfold mbind, run_bind, mret, run_ret, bind, call, ret.
  cbn [result effects updates].
  match goal with
  | |- context [forEach els ?f] =>
      destruct (forEach_total (S := ()) els f) as [Hr He]; [done|]
  end.
  rewrite Hr, He.
  cbn [result effects app]. rewrite app_nil_r, cleanup_effects.
  split; [done|]. split; [done|]. split; [|split; [|done]].
  - cbn [fmap list_fmap unregister]. f_equal.
    by rewrite fmap_bind_list.
  - cbn [length]. f_equal. by apply length_bind_const.
Qed.

Example cursor_on_a_page :
  effects
    (useEffect
       {| querySelector := λ sel,
            if bool_decide (sel = js ".cursor-dot") then Some 1
            else if bool_decide (sel = js ".cursor-outline") then Some 2
            else None;
          querySelectorAll := λ _, [5; 6];
          getElementById := λ _, None |}
       {| scrollY := 0; ontouchstart_in_window := false;
          maxTouchPoints := 0 |})
  = [addEventListener window (js "mousemove") L_moveCursor;
     addEventListener (node 5) (js "mouseenter") L_addHoverState;
     addEventListener (node 5) (js "mouseleave") L_removeHoverState;
     addEventListener (node 6) (js "mouseenter") L_addHoverState;
     addEventListener (node 6) (js "mouseleave") L_removeHoverState].
Proof. by vm_compute. Qed.

(** X10.  On a touch device the hook registers nothing and returns no
    cleanup, even when the cursor elements are in the document. *)
Theorem cursor_off_on_touch (document : Document) (win : Window) :
  ontouchstart_in_window win = true ∨ 0 < maxTouchPoints win →
  useEffect document win = Run [] [] (Normal None).
Proof.
  intros H. unfold useEffect.
  destruct (querySelector _ _); [|done].
  destruct (querySelector _ _); [|done].
  destruct H as [->|H%N.ltb_lt]; [done|].
  rewrite H. by rewrite orb_true_r.
Qed.

Lemma cursor_off_on_touch_witness :
  useEffect
    {| querySelector := λ _, Some 1; querySelectorAll := λ _, [5; 6];
       getElementById := λ _, None |}
    {| scrollY := 0; ontouchstart_in_window := false; maxTouchPoints := 5 |}
  = Run [] [] (Normal None).
Proof. apply cursor_off_on_touch. right. reflexivity. Defined.

Lemma DOMTokenList_add_other (token : list N) (tokens : list (list N)) :
  filter (λ t, t ≠ token) (DOMTokenList_add token tokens)
  = filter (λ t, t ≠ token) tokens.
Proof.
  unfold DOMTokenList_add. case_bool_decide; [done|].
  rewrite filter_app, filter_cons_False, filter_nil by (intros ?; done).
  apply app_nil_r.
Qed.

Lemma DOMTokenList_add_NoDup (token : list N) (tokens : list (list N)) :
  NoDup tokens → NoDup (DOMTokenList_add token tokens).
Proof.
  intros H. unfold DOMTokenList_add. case_bool_decide; [done|].
  apply NoDup_app. split; [done|]. split; [|apply NoDup_singleton].
  intros x Hx ->%list_elem_of_singleton. done.
Qed.

Lemma filter_idemp {A} (P : A → Prop) `{∀ x, Decision (P x)} (l : list A) :
  filter P (filter P l) = filter P l.
Proof.
  induction l as [|x l IH]; [done|].
  destruct (decide (P x)) as [HP|HP].
  - rewrite !filter_cons_True by done. by rewrite IH.
  - by rewrite filter_cons_False.
Qed.

(** X11.  The hover handlers touch one token of one element: the class
    list of every other element is as before; on the outline, after
    [addHoverState] and after [removeHoverState] alike, the tokens other
    than [hovered] keep their presence and order; after [addHoverState]
    the token is there and after [removeHoverState] it is not; and a class
    list without duplicates stays without duplicates. *)
Theorem hover_state_frame
    (classes : gmap element (list (list N))) (outline : element) :
  (∀ el, el ≠ outline →
         (apply_trace classes (effects (addHoverState (Some outline)))
            !!! el) = classes !!! el
         ∧ (apply_trace classes (effects (removeHoverState (Some outline)))
              !!! el) = classes !!! el)
  ∧ filter (λ t, t ≠ js "hovered")
      (apply_trace classes (effects (addHoverState (Some outline)))
         !!! outline)
    = filter (λ t, t ≠ js "hovered") (classes !!! outline)
  ∧ filter (λ t, t ≠ js "hovered")
      (apply_trace classes (effects (removeHoverState (Some outline)))
         !!! outline)
    = filter (λ t, t ≠ js "hovered") (classes !!! outline)
  ∧ (js "hovered"
       ∈ apply_trace classes (effects (addHoverState (Some outline)))
           !!! outline)
  ∧ (js "hovered"
       ∉ apply_trace classes (effects (removeHoverState (Some outline)))
           !!! outline)
  ∧ (NoDup (classes !!! outline) →
     NoDup (apply_trace classes (effects (addHoverState (Some outline)))
              !!! outline)
     ∧ NoDup (apply_trace classes
                (effects (removeHoverState (Some outline))) !!! outline)).
Proof.
  cbn [addHoverState removeHoverState call effects apply_trace foldl
       apply_effect].
  rewrite !lookup_total_insert_eq.
  split; [|split; [|split; [|split; [|split]]]].
  - intros el Hel. by rewrite !lookup_total_insert_ne.
  - apply DOMTokenList_add_other.
  - unfold DOMTokenList_remove. apply filter_idemp.
  - unfold DOMTokenList_add. case_bool_decide; [done|].
    apply elem_of_app. right. by apply list_elem_of_singleton.
  - apply DOMTokenList_remove_not_elem.
  - intros H. split; [by apply DOMTokenList_add_NoDup|].
    by apply NoDup_filter.
Qed.

(** The outline keeps its own class through a hover. *)
Example hover_keeps_outline_class :
  (apply_trace {[ 2 := [js "cursor-outline"; js "hovered"] ]}
     (effects (removeHoverState (Some 2))) !!! 2) = [js "cursor-outline"].
Proof. by vm_compute. Qed.

Lemma hover_state_frame_witness :
  (apply_trace {[ 1 := [js "cursor-dot"]; 2 := [js "cursor-outline"] ]}
     (effects (addHoverState (Some 2))) !!! 1) = [js "cursor-dot"].
Proof.
  destruct (hover_state_frame
              {[ 1 := [js "cursor-dot"]; 2 := [js "cursor-outline"] ]} 2)
    as (Hother & _).
  destruct (Hother 1) as [H _]; [done|].
  etransitivity; [exact H|reflexivity].
Defined.

End CursorProperties.

(** ** [RevealOnScroll]: what the observer watches *)

Section ObserverProperties.
Import JS Platform React RevealOnScroll.

Lemma step_Notify (i : instance) (batch : list IntersectionObserverEntry) :
  step i (Notify batch)
  = if reveals (Notify batch) then {| isVisible := true; targets := [] |}
    else i.
Proof. destruct i, batch as [|[[]] ?]; reflexivity. Qed.

Lemma steps_Notify (i : instance)
    (batches : list (list IntersectionObserverEntry)) :
  steps i (Notify <$> batches)
  = if existsb (λ batch, reveals (Notify batch)) batches
    then {| isVisible := true; targets := [] |}
    else i.
Proof.
  revert i. induction batches as [|b bs IH]; intros i; [done|].
  cbn [fmap list_fmap existsb]. unfold steps in *. cbn [foldl].
  rewrite IH, step_Notify.
  destruct (reveals (Notify b)); cbn [orb]; [|done].
  by destruct (existsb _ bs).
Qed.

(** X12.  A mounted section is watched until it is revealed: after the
    hook has run on the element and any number of batches were delivered,
    the observer's only target is that element while the flag is false,
    and it has no target once the flag is true; unmounting releases the
    target and keeps the flag. *)
Theorem observer_watches_until_revealed
    (el : element) (batches : list (list IntersectionObserverEntry)) :
  steps mounted (Effect (Some el) :: (Notify <$> batches))
  = (if existsb (λ batch, reveals (Notify batch)) batches
     then {| isVisible := true; targets := [] |}
     else {| isVisible := false; targets := [el] |})
  ∧ steps mounted (Effect (Some el) :: (Notify <$> batches) ++ [Unmount])
    = {| isVisible := existsb (λ batch, reveals (Notify batch)) batches;
         targets := [] |}.
Proof.
  assert (steps mounted (Effect (Some el) :: (Notify <$> batches))
          = steps {| isVisible := false; targets := [el] |}
              (Notify <$> batches)) as Hstart by reflexivity.
  split.
  - by rewrite Hstart, steps_Notify.
  - change (Effect (Some el) :: (Notify <$> batches) ++ [Unmount])
      with ((Effect (Some el) :: (Notify <$> batches)) ++ [Unmount]).
    unfold steps in *. rewrite foldl_snoc. fold (steps mounted).
    unfold steps in Hstart. rewrite Hstart. fold (steps).
    rewrite steps_Notify. by destruct (existsb _ batches).
Qed.

End ObserverProperties.

(** ** [Navbar]: the two flags *)

Section NavbarProperties.
Import JS Platform React Navbar Session.

Lemma nav_steps_snoc (s : state) (evs : list nav_event) (ev : nav_event) :
  nav_steps s (evs ++ [ev]) = nav_step (nav_steps s evs) ev.
Proof. unfold nav_steps. apply foldl_snoc. Qed.

Lemma nav_step_scrolled (s : state) (ev : nav_event) :
  scrolled (nav_step s ev)
  = match ev with
    | Scroll win => bool_decide (20 < scrollY win)%Z
    | _ => scrolled s
    end.
Proof.
  destruct ev as [win| |document id|]; try done.
  unfold nav_step, nav_handler, scrollToSection.
  by destruct (getElementById document id).
Qed.

Lemma nav_step_menu (s1 s2 : state) (ev : nav_event) :
  mobileMenuOpen s1 = mobileMenuOpen s2 →
  mobileMenuOpen (nav_step s1 ev) = mobileMenuOpen (nav_step s2 ev).
Proof.
  intros H. destruct ev as [win| |document id|]; cbn; try done.
  - by rewrite H.
  - unfold nav_step, nav_handler, scrollToSection.
    by destruct (getElementById document id).
Qed.

(** X13.  The two flags of the navigation bar do not interfere: after any
    sequence of scrolls, hamburger clicks, navigation clicks and logo
    clicks, [scrolled] is the test [scrollY > 20] of the last scroll event
    (its first value if there was none), and [mobileMenuOpen] is what the
    same sequence without its scroll events gives. *)
Theorem nav_flags_independent (s : state) (evs : list nav_event) :
  scrolled (nav_steps s evs)
  = match last_scroll evs with
    | Some win => bool_decide (20 < scrollY win)%Z
    | None => scrolled s
    end
  ∧ mobileMenuOpen (nav_steps s evs)
    = mobileMenuOpen
        (nav_steps s (filter (λ ev, is_scroll ev = false) evs)).
Proof.
  induction evs as [|ev evs [IH1 IH2]] using rev_ind; [done|].
  rewrite nav_steps_snoc, nav_step_scrolled. unfold last_scroll in *.
  rewrite bind_app, filter_app. split.
  - destruct ev; cbn [mbind list_bind app]; rewrite ?app_nil_r; try done.
    by rewrite last_snoc.
  - destruct ev as [win| |document id|].
    + rewrite filter_cons_False, filter_nil, app_nil_r by done. exact IH2.
    + rewrite filter_cons_True, filter_nil by done.
      rewrite nav_steps_snoc. by apply nav_step_menu.
    + rewrite filter_cons_True, filter_nil by done.
      rewrite nav_steps_snoc. by apply nav_step_menu.
    + rewrite filter_cons_True, filter_nil by done.
      rewrite nav_steps_snoc. by apply nav_step_menu.
Qed.

(** X14.  The hamburger button is a switch: two clicks in a row give back
    the state; and whatever the state, a navigation click that finds its
    section leaves the menu closed and [scrolled] untouched. *)
Theorem nav_menu_switch (s : state) :
  nav_steps s [Hamburger; Hamburger] = s
  ∧ mobileMenuOpen (nav_step s Hamburger) = negb (mobileMenuOpen s)
  ∧ ∀ document id el,
      getElementById document id = Some el →
      nav_step s (NavClick document id)
      = {| scrolled := scrolled s; mobileMenuOpen := false |}
      ∧ nav_steps s [Hamburger; NavClick document id; Hamburger]
        = {| scrolled := scrolled s; mobileMenuOpen := true |}.
Proof.
  split; [by destruct s as [? []]|]. split; [done|].
  intros document id el H.
  unfold nav_steps, nav_step, nav_handler, scrollToSection. cbn [foldl].
  unfold scrollToSection. rewrite H. by destruct s.
Qed.

Lemma nav_menu_switch_witness :
  nav_step {| scrolled := true; mobileMenuOpen := true |}
    (NavClick {| querySelector := λ _, None; querySelectorAll := λ _, [];
                 getElementById := λ _, Some 4 |} (js "sobre"))
  = {| scrolled := true; mobileMenuOpen := false |}.
Proof.
  destruct (nav_menu_switch {| scrolled := true; mobileMenuOpen := true |})
    as (_ & _ & H).
  apply (H _ _ 4). reflexivity.
Defined.

End NavbarProperties.

(** ** The buttons and the sections they scroll to *)

Section PageProperties.
Import JS Platform React Page.

Lemma targets_are_rendered :
  ∀ id, id ∈ navbar_targets ++ [js "contato"; js "solucoes"] →
        id ∈ rendered_ids.
Proof.
  apply Forall_forall. apply (bool_decide_unpack _). by vm_compute.
Qed.

Lemma scroll_button_found (document : Document) (id : list N) :
  shows_page document → id ∈ rendered_ids →
  ∃ el, getElementById document id = Some el
        ∧ Hero.scroll_button document id
          = Run [] [scrollIntoView el (js "smooth")] (Normal ()).
Proof.
  intros Hdoc Hid. destruct (Hdoc id Hid) as [el Hel]. exists el.
  split; [done|]. unfold Hero.scroll_button. by rewrite Hel.
Qed.

(** X15.  No button of the page is dead: in a document that shows the
    sections [App] renders, every item of the navigation bar (desktop menu
    and mobile overlay) and its "Agendar Consultoria" button find their
    section, scroll to it and close the mobile menu; and the buttons of
    [Hero] and [Methodology] find theirs and scroll to it. *)
Theorem every_button_finds_its_section (document : Document) :
  shows_page document →
  (∀ id, id ∈ navbar_targets →
     ∃ el, getElementById document id = Some el
           ∧ effects (Navbar.scrollToSection document id)
             = [scrollIntoView el (js "smooth")]
           ∧ ∀ s, commit s (Navbar.scrollToSection document id)
                  = {| Navbar.scrolled := Navbar.scrolled s;
                       Navbar.mobileMenuOpen := false |})
  ∧ (∃ el, Hero.escalar_onClick document
           = Run [] [scrollIntoView el (js "smooth")] (Normal ())
           ∧ Methodology.diagnostico_onClick document
             = Run [] [scrollIntoView el (js "smooth")] (Normal ()))
  ∧ (∃ el, Hero.conhecer_onClick document
           = Run [] [scrollIntoView el (js "smooth")] (Normal ())).
Proof.
  intros Hdoc. split; [|split].
  - intros id Hid.
    destruct (Hdoc id) as [el Hel].
    { apply targets_are_rendered, elem_of_app. by left. }
    exists el. unfold Navbar.scrollToSection. rewrite Hel.
    split; [done|]. split; [done|]. by intros [].
  - destruct (scroll_button_found document (js "contato") Hdoc)
      as (el & _ & H).
    { apply targets_are_rendered, elem_of_app. right. set_solver. }
    by exists el.
  - destruct (scroll_button_found document (js "solucoes") Hdoc)
      as (el & _ & H).
    { apply targets_are_rendered, elem_of_app. right. set_solver. }
    by exists el.
Qed.

Lemma every_button_finds_its_section_witness :
  ∃ el,
    Hero.conhecer_onClick
      {| querySelector := λ _, None; querySelectorAll := λ _, [];
         getElementById := λ id,
           N.of_nat <$> (fst <$> list_find (λ x, x = id) rendered_ids) |}
    = Run [] [scrollIntoView el (js "smooth")] (Normal ()).
Proof.
  apply (every_button_finds_its_section
           {| querySelector := λ _, None; querySelectorAll := λ _, [];
              getElementById := λ id,
                N.of_nat <$> (fst <$> list_find (λ x, x = id) rendered_ids)
           |}).
  intros id Hid. cbn [getElementById].
  revert id Hid. apply Forall_forall.
  apply (bool_decide_unpack _). by vm_compute.
Defined.

End PageProperties.

(** ** [FAQ]: any set of items can be open *)

Section AccordionProperties.
Import JS Platform React Session.

Lemma click_lookup (items : list bool) (i k : nat) :
  FAQ.click i items !! k
  = if decide (k = i) then negb <$> items !! k else items !! k.
Proof.
  unfold FAQ.click. destruct (items !! i) as [b|] eqn:E.
  - destruct (decide (k = i)) as [->|Hne].
    + rewrite list_lookup_insert_eq, E; [done|]. by eapply lookup_lt_Some.
    + by rewrite list_lookup_insert_ne.
  - destruct (decide (k = i)) as [->|Hne]; [by rewrite E|done].
Qed.

Lemma click_0 (b : bool) (items : list bool) :
  FAQ.click 0 (b :: items) = negb b :: items.
Proof. reflexivity. Qed.

Lemma click_S (i : nat) (b : bool) (items : list bool) :
  FAQ.click (S i) (b :: items) = b :: FAQ.click i items.
Proof. unfold FAQ.click. cbn. by destruct (items !! i). Qed.

Lemma faq_clicks_S (clicks : list nat) (b : bool) (items : list bool) :
  faq_clicks (b :: items) (S <$> clicks) = b :: faq_clicks items clicks.
Proof.
  revert items. induction clicks as [|i clicks IH]; intros items; [done|].
  cbn [fmap list_fmap]. unfold faq_clicks in *. cbn [foldl].
  by rewrite click_S, IH.
Qed.

(** X16.  The accordion is not exclusive: from any state of the items, any
    other state of as many items is reached by clicking; clicks on two
    items can be done in either order; and a click keeps the number of
    items. *)
Theorem faq_any_state_reachable :
  (∀ items target : list bool,
     length target = length items →
     ∃ clicks, faq_clicks items clicks = target)
  ∧ (∀ (items : list bool) i j,
       FAQ.click i (FAQ.click j items) = FAQ.click j (FAQ.click i items))
  ∧ (∀ (items : list bool) i, length (FAQ.click i items) = length items).
Proof.
  split; [|split].
  - induction items as [|b items IH]; intros [|t target] Hlen;
      try done; [by exists []|].
    destruct (IH target) as [clicks Hclicks]; [by injection Hlen|].
    destruct (decide (b = t)) as [->|Hbt].
    + exists (S <$> clicks). by rewrite faq_clicks_S, Hclicks.
    + exists (0%nat :: (S <$> clicks)).
      unfold faq_clicks. cbn [foldl]. rewrite click_0.
      fold (faq_clicks (negb b :: items) (S <$> clicks)).
      rewrite faq_clicks_S, Hclicks. by destruct b, t.
  - intros items i j. apply list_eq. intros k. rewrite !click_lookup.
    repeat case_decide; try done.
  - intros items i. unfold FAQ.click.
    destruct (items !! i); [apply length_insert|done].
Qed.

Lemma faq_any_state_reachable_witness :
  ∃ clicks, faq_clicks FAQ.initial clicks = [true; false; true; true].
Proof.
  destruct faq_any_state_reachable as (Hreach & _).
  apply Hreach. reflexivity.
Defined.

End AccordionProperties.

(** ** [InfiniteMarquee]: the strip *)

Section MarqueeProperties.
Import JS InfiniteMarquee.

Lemma lookup_tripled {A} (l : list A) (i : nat) :
  (i < 3 * length l)%nat → (l ++ l ++ l) !! i = l !! (i mod length l)%nat.
Proof.
  intros Hi. set (n := length l) in *.
  destruct (decide (i < n)%nat) as [H1|H1].
  { rewrite lookup_app_l by done. by rewrite Nat.mod_small. }
  rewrite lookup_app_r by lia. fold n.
  destruct (decide (i - n < n)%nat) as [H2|H2].
  { rewrite lookup_app_l by done. f_equal.
    apply (Nat.mod_unique i n 1); lia. }
  rewrite lookup_app_r by lia. fold n. f_equal.
  apply (Nat.mod_unique i n 2); lia.
Qed.

(** X17.  The strip shows the terms three times over: it has three times
    as many items as there are terms, the item at position [i] has key [i]
    and shows the term at position [i mod n], and no two items share a
    key. *)
Theorem marquee_repeats_terms (terms : list (list N)) :
  length (strip terms) = (3 * length terms)%nat
  ∧ (∀ i, (i < 3 * length terms)%nat →
          strip terms !! i
          = (λ term, (i, term)) <$> terms !! (i mod length terms)%nat)
  ∧ NoDup (strip terms).*1.
Proof.
  unfold strip. split; [|split].
  - rewrite length_imap, !length_app. lia.
  - intros i Hi. by rewrite list_lookup_imap, lookup_tripled.
  - apply NoDup_alt. intros i j k.
    rewrite !list_lookup_fmap, !list_lookup_imap.
    destruct ((terms ++ terms ++ terms) !! i); [|done].
    destruct ((terms ++ terms ++ terms) !! j); [|done].
    cbn. congruence.
Qed.

Lemma marquee_repeats_terms_witness :
  items !! 13%nat = Some (13%nat, js "MARKETING IMOBILIÁRIO").
Proof.
  destruct (marquee_repeats_terms InfiniteMarquee.terms) as (_ & H & _).
  unfold items. rewrite H; [reflexivity|]. cbn. lia.
Defined.

End MarqueeProperties.

(** ** The length of an opened URL *)

Section LengthProperties.
Import JS Platform React ContactForm Session.

Lemma length_escapeCodePoint (cp : N) :
  (3 ≤ length (escapeCodePoint cp) ≤ 12)%nat
  ∧ (cp < 0x10000 → (length (escapeCodePoint cp) ≤ 9)%nat).
Proof.
  unfold escapeCodePoint.
  rewrite (length_bind_const 3) by done.
  unfold utf8_of_code_point.
  destruct (N.ltb_spec cp 0x80); [cbn [length]; lia|].
  destruct (N.ltb_spec cp 0x800); [cbn [length]; lia|].
  destruct (N.ltb_spec cp 0x10000); cbn [length]; lia.
Qed.

Lemma Encode_length (s r : list N) :
  code_units s → Encode s = Some r →
  (length s ≤ length r ≤ 9 * length s)%nat.
Proof.
  unfold code_units. revert r.
  induction s as [|c rest IH1 IH2] using code_units_ind; intros r Hs; cbn.
  { intros [= <-]. cbn. lia. }
  apply Forall_cons in Hs as [Hc Hrest].
  destruct (unescaped c).
  { destruct (Encode rest) as [r'|]; [|done]. intros [= <-].
    specialize (IH1 r' Hrest eq_refl). cbn. lia. }
  destruct (isLeadingSurrogate c).
  { destruct rest as [|d rest']; [done|].
    destruct (isTrailingSurrogate d); [|done].
    apply Forall_cons in Hrest as [_ Hrest'].
    destruct (Encode rest') as [r'|] eqn:E; [|done]. intros [= <-].
    specialize (IH2 _ _ eq_refl r' Hrest' E).
    pose proof (length_escapeCodePoint (UTF16SurrogatePairToCodePoint c d))
      as [? _].
    rewrite length_app. cbn [length]. lia. }
  destruct (isTrailingSurrogate c); [done|].
  destruct (Encode rest) as [r'|]; [|done]. intros [= <-].
  specialize (IH1 r' Hrest eq_refl).
  pose proof (length_escapeCodePoint c) as [? Hle]. specialize (Hle Hc).
  rewrite length_app. lia.
Qed.

(** X18.  The opened URL is never shorter than the prefix plus the message,
    and never longer than the prefix plus nine units for every unit of the
    message: the 33 units of ["https://wa.me/5519999592852?text="], and
    for the message its 87 fixed units and the four values. *)
Theorem handleSubmit_url_length
    (name instagram niche objective url : list N) :
  Forall code_units [name; instagram; niche; objective] →
  url ∈ opened_urls
          (effects (handleSubmit (form name instagram niche objective))) →
  (33 + (87 + length name + length instagram + length niche
         + length objective)
   ≤ length url
   ≤ 33 + 9 * (87 + length name + length instagram + length niche
               + length objective))%nat.
Proof.
  intros HU. repeat (apply Forall_cons in HU as [? HU]).
  destruct (form_lookups name instagram niche objective)
    as (Ln & Li & Lc & Lo).
  rewrite (handleSubmit_message _ _ _ _ _ Ln Li Lc Lo).
  unfold encodeURIComponent.
  destruct (Encode (message name instagram niche objective)) as [r|] eqn:E;
    cbn [effects]; [|by intros ?%elem_of_nil].
  rewrite opened_urls_submit. intros ->%list_elem_of_singleton.
  apply Encode_length in E; [|by apply code_units_message].
  rewrite message_eq in E. rewrite !length_app in E.
  rewrite length_app.
  change (length (js "https://wa.me/5519999592852?text=")) with 33%nat.
  change (length (js "*Nova Aplicação via Site Capturehouse*"))
    with 38%nat in E.
  change (length (js "*Nome:* ")) with 8%nat in E.
  change (length (js "*Instagram:* ")) with 13%nat in E.
  change (length (js "*Atuação:* ")) with 11%nat in E.
  change (length (js "*Objetivo:* ")) with 12%nat in E.
  change (length LF) with 1%nat in E. lia.
Qed.

Lemma handleSubmit_url_length_witness :
  (33 + (87 + 3 + 4 + 4 + 3)
   ≤ length
       (js ("https://wa.me/5519999592852?text=" +:+
            "*Nova%20Aplica%C3%A7%C3%A3o%20via%20Site%20Capturehouse*" +:+
            "%0A%0A*Nome%3A*%20Ana%0A*Instagram%3A*%20%40ana%0A" +:+
            "*Atua%C3%A7%C3%A3o%3A*%20Luxo%0A*Objetivo%3A*%20VGV"))
   ≤ 33 + 9 * (87 + 3 + 4 + 4 + 3))%nat.
Proof.
  apply (handleSubmit_url_length (js "Ana") (js "@ana") (js "Luxo")
           (js "VGV")).
  - repeat (apply List.Forall_cons; [by apply code_units_literal|]).
    apply List.Forall_nil.
  - vm_compute. left.
Defined.

End LengthProperties.
